(** * msfs-simconnect-api-wrapper: the id allocator, the event multiplexer,
      the one-shot get/set calls and the airport database queries.

    The JavaScript of [msfs-api.js] (class [MSFS_API]) and of the airport
    extension (class [AirportHandler]) is embedded as Rocq functions over an
    explicit state.  Calls into the SimConnect handle, invocations of user
    callbacks and console output are appended to a trace kept in the state;
    a JavaScript [throw] is the [Throw] outcome of the small state and
    exception monad below. *)

From Stdlib Require Import ZArith String Ascii List Lia Permutation Sorted Floats.
From stdpp Require Import base gmap sets list strings pretty.

Set Warnings "-inexact-float".

Local Open Scope Z_scope.
Local Open Scope string_scope.
Local Open Scope list_scope.

(** ** JavaScript values, exceptions and the state/exception monad *)

Module JS.

(** The double quote character, used in the error messages of the wrapper. *)
Definition dquote : string := String "034"%char EmptyString.

(** The values that reach the event handlers: the payload of a SimConnect
    event is a number, [undefined] is the initial [data] of a listener
    entry; the other constructors are the remaining primitive values and
    opaque objects (arrays, records) identified by a reference. *)
Inductive value :=
| Undefined
| Null
| Bool (b : bool)
| Number (n : Z)
| Str (s : string)
| Object (ref : nat).

(** [ToBoolean]: what [if (v)] tests. *)
Definition truthy (v : value) : bool :=
  match v with
  | Undefined | Null => false
  | Bool b => b
  | Number n => negb (n =? 0)%Z
  | Str s => negb (String.eqb s EmptyString)
  | Object _ => true
  end.

Inductive exn :=
| TypeError (msg : string)
| Error (msg : string)
| SyntaxError (msg : string)
| SystemError (msg : string).

Inductive outcome (A : Type) :=
| Return (a : A)
| Throw (e : exn).
Arguments Return {A} a.
Arguments Throw {A} e.

(** Computations over a state [S] that return or throw. *)
Definition M (S A : Type) : Type := S -> outcome A * S.

Definition ret {S A} (a : A) : M S A := fun s => (Return a, s).
Definition throw {S A} (e : exn) : M S A := fun s => (Throw e, s).
Definition bind {S A B} (m : M S A) (k : A -> M S B) : M S B :=
  fun s =>
    match m s with
    | (Return a, s') => k a s'
    | (Throw e, s') => (Throw e, s')
    end.
Definition gets {S A} (f : S -> A) : M S A := fun s => (Return (f s), s).
Definition modify {S} (f : S -> S) : M S unit := fun s => (Return tt, f s).
(** [try { m } catch (e) { h e }] *)
Definition try_catch {S A} (m : M S A) (h : exn -> M S A) : M S A :=
  fun s =>
    match m s with
    | (Return a, s') => (Return a, s')
    | (Throw e, s') => h e s'
    end.

(** [l.forEach(f)]: the callbacks run in order, the first throw ends the loop. *)
Fixpoint forEach {S A} (f : A -> M S unit) (l : list A) : M S unit :=
  match l with
  | [] => ret tt
  | x :: rest => bind (f x) (fun _ => forEach f rest)
  end.

(** [s.replaceAll(a, b)] for one-character [a] and [b]. *)
Fixpoint replaceAll (a b : ascii) (s : string) : string :=
  match s with
  | EmptyString => EmptyString
  | String c rest =>
      String (if Ascii.eqb c a then b else c) (replaceAll a b rest)
  end.

(** [s.startsWith(p)] *)
Fixpoint startsWith (s p : string) {struct p} : bool :=
  match p, s with
  | EmptyString, _ => true
  | String _ _, EmptyString => false
  | String a p', String c s' => Ascii.eqb a c && startsWith s' p'
  end.

(** [s.indexOf(c)] for a one-character [c]; [None] stands for [-1]. *)
Fixpoint indexOf (c : ascii) (s : string) : option nat :=
  match s with
  | EmptyString => None
  | String x rest =>
      if Ascii.eqb x c then Some O else S <$> indexOf c rest
  end.

(** [s.includes(c)] *)
Definition includes (c : ascii) (s : string) : bool :=
  match indexOf c s with Some _ => true | None => false end.

(** [s.substring(n)] *)
Fixpoint substring (n : nat) (s : string) : string :=
  match n, s with
  | O, _ => s
  | S n', String _ rest => substring n' rest
  | S _, EmptyString => EmptyString
  end.

(** [a] occurs in [s] as a contiguous substring. *)
Definition occurs_in (a s : string) : Prop :=
  exists pre post, s = pre +:+ a +:+ post.

End JS.

Import JS.

Declare Scope js_scope.
Delimit Scope js_scope with js.
Notation "x <- m ;; k" := (bind m (fun x => k))
  (at level 100, m at next level, right associativity) : js_scope.
Notation "m ;;; k" := (bind m (fun _ => k))
  (at level 100, right associativity) : js_scope.

(** ** The [MSFS_API] class *)

Module MSFS_API.

(** User callbacks are JavaScript functions; [findIndex] compares them by
    reference, so a handler is modelled by the identity of its function
    object.  Calling it is recorded in the trace; what the callback itself
    does (it could throw, or call back into the object) is outside the
    model. *)
Definition handler := nat.

(** What [SimVars[propName]] holds for a known property. *)
Record simvar := { units : string; data_type : Z }.

(** What reading a property of the [SimVars] table can give besides
    [undefined]: an entry of the table, or a member that the table object
    inherits from [Object.prototype], which has no [units], [data_type],
    [read] or [write]. *)
Inductive definition :=
| Def (d : simvar)
| Member.

(** One record per subscription; [e[eventName]] and [e[eventID]] refer to
    the same object, so entries live in a heap and the listener table maps
    property keys to heap references. *)
Record entry := {
  eventID : Z;
  eventName : string;
  data : value;
  handlers : list handler
}.

(** The deferred cleanup that [set] hands to [setTimeout]. *)
Inductive callback :=
| ReleaseAndClear (DATA_ID : Z).

(** Calls that leave the object: the SimConnect handle, user callbacks, the
    console and the timer queue. *)
Inductive effect :=
| subscribeToSystemEvent (eventID : Z) (eventName : string)
| invoke (h : handler) (v : value)
| console_error (msg : string)
| clearDataDefinition (DATA_ID : Z)
| addToDataDefinition (DATA_ID : Z) (propName : string) (d : simvar)
| addToDataDefinition_undefined (DATA_ID : Z) (propName : string)
| on_simObjectData (REQUEST_ID : Z)
| requestDataOnSimObject (REQUEST_ID DATA_ID : Z)
| setDataOnSimObject (DATA_ID : Z) (v : value)
| setTimeout (cb : callback) (ms : Z).

Record api := {
  id : Z;                             (* this.id *)
  reserved : gset Z;                  (* this.reserved *)
  eventListeners : gmap string nat;   (* this.eventListeners: key -> heap reference *)
  heap : list entry;                  (* the entry objects *)
  trace : list effect
}.

(** The state after [new MSFS_API()]. *)
Definition init : api :=
  {| id := 1; reserved := ∅; eventListeners := ∅; heap := []; trace := [] |}.

Definition set_id (n : Z) (s : api) : api :=
  {| id := n; reserved := reserved s; eventListeners := eventListeners s;
     heap := heap s; trace := trace s |}.
Definition set_reserved (r : gset Z) (s : api) : api :=
  {| id := id s; reserved := r; eventListeners := eventListeners s;
     heap := heap s; trace := trace s |}.
Definition set_eventListeners (e : gmap string nat) (s : api) : api :=
  {| id := id s; reserved := reserved s; eventListeners := e;
     heap := heap s; trace := trace s |}.
Definition set_heap (h : list entry) (s : api) : api :=
  {| id := id s; reserved := reserved s; eventListeners := eventListeners s;
     heap := h; trace := trace s |}.
Definition emit (e : effect) (s : api) : api :=
  {| id := id s; reserved := reserved s; eventListeners := eventListeners s;
     heap := heap s; trace := trace s ++ [e] |}.

(** *** nextId / releaseId *)

(** The loop [while (this.reserved.has(id)) id = this.id++] on the pair
    ([id], [this.id]).  [reserved] is a finite set and the candidates are
    pairwise distinct, so the body runs at most [size reserved] times: the
    bound [n] is that number, and when it reaches zero every member of
    [reserved] at or above the first candidate has been passed
    ([nextId_loop_free] below proves that the exit is by the loop test). *)
Fixpoint nextId_loop (n : nat) (reserved : gset Z) (id this_id : Z) : Z * Z :=
  match n with
  | O => (id, this_id)
  | S n' =>
      if decide (id ∈ reserved)
      then nextId_loop n' reserved this_id (this_id + 1)
      else (id, this_id)
  end.

Definition nextId (s : api) : Z * api :=
  (* if (this.id > 900) this.id = 0; *)
  let this_id := if id s >? 900 then 0 else id s in
  (* let id = this.id++; while (...) id = this.id++; *)
  let '(r, this_id') :=
    nextId_loop (size (reserved s)) (reserved s) this_id (this_id + 1) in
  (* this.reserved.add(id); return id; *)
  (r, set_reserved ({[r]} ∪ reserved s) (set_id this_id' s)).

Definition releaseId (r : Z) (s : api) : api :=
  set_reserved (reserved s ∖ {[r]}) s.

(** A caller's sequence of allocator calls, and the record of each
    [nextId()] in it: the state it was called in, the value it returned
    and the state it left. *)
Inductive call :=
| NextId
| ReleaseId (r : Z).

Record allocation := { before : api; returned : Z; after : api }.

Fixpoint run (calls : list call) (s : api) : list allocation * api :=
  match calls with
  | [] => ([], s)
  | NextId :: rest =>
      let '(r, s') := nextId s in
      let '(log, s'') := run rest s' in
      ({| before := s; returned := r; after := s' |} :: log, s'')
  | ReleaseId r :: rest => run rest (releaseId r s)
  end.

(** *** The listener table

    [this.eventListeners] is a plain object created by [{}]: its keys are
    strings (a numeric event id is converted to its decimal string when it
    is used as a key) and a key it does not own is looked up in
    [Object.prototype]. *)
Definition Object_prototype : list string :=
  [ "constructor"; "__proto__"; "hasOwnProperty"; "isPrototypeOf";
    "propertyIsEnumerable"; "toLocaleString"; "toString"; "valueOf";
    "__defineGetter__"; "__defineSetter__"; "__lookupGetter__";
    "__lookupSetter__" ].

(** The result of reading [e[key]]. *)
Inductive property :=
| Absent                           (* undefined *)
| Own (ref : nat) (en : entry)     (* an entry object stored under the key *)
| Inherited.                       (* a member of Object.prototype: truthy, no [handlers] *)

Definition get_property (s : api) (key : string) : property :=
  match eventListeners s !! key with
  | Some r =>
      match heap s !! r with
      | Some en => Own r en
      | None => Absent
      end
  | None => if bool_decide (key ∈ Object_prototype) then Inherited else Absent
  end.

Definition with_handlers (hs : list handler) (en : entry) : entry :=
  {| eventID := eventID en; eventName := eventName en; data := data en;
     handlers := hs |}.
Definition with_data (v : value) (en : entry) : entry :=
  {| eventID := eventID en; eventName := eventName en; data := v;
     handlers := handlers en |}.

(** [l.findIndex(h => h === x)]; [None] stands for [-1]. *)
Fixpoint findIndex (x : handler) (l : list handler) : option nat :=
  match l with
  | [] => None
  | h :: rest => if Nat.eqb h x then Some O else S <$> findIndex x rest
  end.

Definition addEventListener (eventName : string) (eventHandler : handler)
  : M api unit :=
  fun s =>
    match get_property s eventName with
    | Absent =>
        (* if (!e[eventName]) { ... } *)
        let '(eventID, s1) := nextId s in
        let s2 := emit (subscribeToSystemEvent eventID eventName) s1 in
        let r := length (heap s2) in
        let en := {| eventID := eventID; eventName := eventName;
                     data := Undefined; handlers := [eventHandler] |} in
        let s3 := set_heap (heap s2 ++ [en]) s2 in
        (* e[eventName] = {...}; e[eventID] = e[eventName]; *)
        (Return tt,
         set_eventListeners
           (<[pretty eventID := r]> (<[eventName := r]> (eventListeners s3))) s3)
    | Own r en =>
        (* e[eventName].handlers.push(eventHandler); *)
        let s1 :=
          set_heap (<[r := with_handlers (handlers en ++ [eventHandler]) en]> (heap s)) s in
        (* const { data } = e[eventName]; if (data) eventHandler(data); *)
        if truthy (data en)
        then (Return tt, emit (invoke eventHandler (data en)) s1)
        else (Return tt, s1)
    | Inherited =>
        (* e[eventName].handlers is undefined *)
        (Throw (TypeError "Cannot read properties of undefined (reading 'push')"), s)
    end.

Definition removeEventListener (eventName : string) (eventHandler : handler)
  : M api unit :=
  fun s =>
    match get_property s eventName with
    | Absent =>
        (* obj is undefined *)
        (Throw (TypeError "Cannot read properties of undefined (reading 'handlers')"), s)
    | Inherited =>
        (* obj.handlers is undefined *)
        (Throw (TypeError "Cannot read properties of undefined (reading 'findIndex')"), s)
    | Own r en =>
        match findIndex eventHandler (handlers en) with
        | Some pos =>
            (* obj.handlers.splice(pos, 1) *)
            (Return tt,
             set_heap (<[r := with_handlers (delete pos (handlers en)) en]> (heap s)) s)
        | None => (Return tt, s)
        end
    end.

(** An inbound ["event"] of the handle: [{ clientEventId, data }]. *)
Record system_event := { clientEventId : Z; event_data : value }.

Definition handleSystemEvent (event : system_event) : M api unit :=
  fun s =>
    let eventID := clientEventId event in
    let data := event_data event in
    match get_property s (pretty eventID) with
    | Absent =>
        (Return tt,
         emit (console_error
                 ("handling data for id " +:+ pretty eventID
                  +:+ " without an event handler entry??")) s)
    | Own r en =>
        (* entry.data = data; entry.handlers.forEach((handle) => handle(data)); *)
        let s1 := set_heap (<[r := with_data data en]> (heap s)) s in
        forEach (fun h => modify (emit (invoke h data))) (handlers en) s1
    | Inherited =>
        (Throw (TypeError "Cannot read properties of undefined (reading 'forEach')"), s)
    end.

(** [off(eventName, eventHandler)] *)
Definition off (eventName : string) (eventHandler : handler) : M api unit :=
  removeEventListener eventName eventHandler.

(** The argument-less function that [on] returns: calling it runs
    [this.off(eventName, eventHandler)]. *)
Record off_function := { off_name : string; off_handler : handler }.

Definition __subscribeToAirports (eventName : string) (eventHandler : handler)
  : M api (option off_function) :=
  (addEventListener eventName eventHandler ;;;
   ret (Some {| off_name := eventName; off_handler := eventHandler |}))%js.

Section Tables.

(** [SimVars] and [SystemEvents] are imported from modules that are data
    tables: [SimVars propName] is the entry that the table has of its own
    under [propName] ([None] when it has none), the two strings are the
    [name] fields of the airport events. *)
Variable SimVars : string -> option simvar.
Variables AIRPORTS_IN_RANGE_name AIRPORTS_OUT_OF_RANGE_name : string.

(** [SimVars[propName]]: the table is a plain object, so a name it has no
    entry for is looked up in [Object.prototype]; [None] is [undefined]. *)
Definition SimVars_lookup (propName : string) : option definition :=
  match SimVars propName with
  | Some d => Some (Def d)
  | None =>
      if bool_decide (propName ∈ Object_prototype) then Some Member else None
  end.

(** [on(eventDefinition, eventHandler)]; a definition is [{ name, desc }],
    [None] is a missing (falsy) definition. *)
Definition on (eventDefinition : option string) (eventHandler : handler)
  : M api (option off_function) :=
  match eventDefinition with
  | None =>
      (modify (emit (console_error "on() called without an event definition")) ;;;
       ret None)%js
  | Some eventName =>
      if bool_decide
           (eventName ∈ [AIRPORTS_IN_RANGE_name; AIRPORTS_OUT_OF_RANGE_name])
      then __subscribeToAirports eventName eventHandler
      else
        (addEventListener eventName eventHandler ;;;
         ret (Some {| off_name := eventName; off_handler := eventHandler |}))%js
  end.

(** *** get / set *)

Definition unknown_message (verb propName : string) : string :=
  "Cannot " +:+ verb +:+ " SimVar: " +:+ dquote +:+ propName +:+ dquote +:+ " unknown.".

(** [propNames.forEach((propName, pos) => { const def = defs[pos]; ... })];
    for an inherited member [def.units] and [def.data_type] are
    [undefined]. *)
Definition addDataDefinitions (DATA_ID : Z) (propNames : list string)
    (defs : list (option definition)) : M api unit :=
  forEach
    (fun '(pos, propName) =>
       match mjoin (defs !! pos) with
       | None =>
           (modify (emit (clearDataDefinition DATA_ID)) ;;;
            modify (releaseId DATA_ID) ;;;
            throw (Error (unknown_message "get" propName)))%js
       | Some (Def def) =>
           modify (emit (addToDataDefinition DATA_ID propName def))
       | Some Member =>
           modify (emit (addToDataDefinition_undefined DATA_ID propName))
       end)
    (imap pair propNames).

(** The synchronous part of the promise executor: the response handler is
    registered and the request is sent.  The promise is identified by
    its request id. *)
Definition generateGetPromise (DATA_ID REQUEST_ID : Z) : M api Z :=
  (modify (emit (on_simObjectData REQUEST_ID)) ;;;
   modify (emit (requestDataOnSimObject REQUEST_ID DATA_ID)) ;;;
   ret REQUEST_ID)%js.

Definition get (propNames : list string) : M api Z :=
  fun s =>
    let '(DATA_ID, s1) := nextId s in
    let REQUEST_ID := DATA_ID in
    let propNames := map (replaceAll "_" " ") propNames in
    let defs := map SimVars_lookup propNames in
    (addDataDefinitions DATA_ID propNames defs ;;;
     generateGetPromise DATA_ID REQUEST_ID)%js s1.

(** [numeric value] is the number when [value == parseFloat(value)]
    holds, so that a number passed as a string is written as a number. *)
Variable numeric : value -> option Z.

(** [def.write(new RawBuffer(bufferLength), value)] of an entry of the
    table: the exception it throws, if it throws (for a read-only variable
    it throws "SimVar ... is not settable"). *)
Variable write_error : simvar -> value -> option exn.

Definition set (propName : string) (v : value) : M api unit :=
  fun s =>
    let propName := replaceAll "_" " " propName in
    let v := match numeric v with Some n => Number n | None => v end in
    let '(DATA_ID, s1) := nextId s in
    match SimVars_lookup propName with
    | None =>
        (* this.releaseId(DATA_ID); throw new Error(...) *)
        (Throw (Error (unknown_message "set" propName)), releaseId DATA_ID s1)
    | Some Member =>
        (* const buffer = def.write(...): an inherited member has no [write] *)
        (Throw (TypeError "def.write is not a function"), s1)
    | Some (Def def) =>
        match write_error def v with
        | Some e => (Throw e, s1)
        | None =>
            (Return tt,
             emit (setTimeout (ReleaseAndClear DATA_ID) 500)
               (emit (setDataOnSimObject DATA_ID v)
                  (emit (addToDataDefinition DATA_ID propName def) s1)))
        end
    end.

End Tables.

(** The timer callback of [set]. *)
Definition fire (cb : callback) (s : api) : api :=
  match cb with
  | ReleaseAndClear DATA_ID => emit (clearDataDefinition DATA_ID) (releaseId DATA_ID s)
  end.

(** *** Use of the object

    What happens to one object over time: calls made by the application
    (which may catch what they throw), events delivered by the handle, and
    ids taken and given back by the other methods. *)
Inductive request :=
| Add (eventName : string) (eventHandler : handler)      (* addEventListener / on *)
| Remove (eventName : string) (eventHandler : handler)   (* removeEventListener / off *)
| Event (event : system_event)                           (* handleSystemEvent *)
| Allocate                                               (* nextId *)
| Release (r : Z).                                       (* releaseId *)

Definition perform (q : request) (s : api) : api :=
  match q with
  | Add eventName eventHandler => snd (addEventListener eventName eventHandler s)
  | Remove eventName eventHandler => snd (off eventName eventHandler s)
  | Event event => snd (handleSystemEvent event s)
  | Allocate => snd (nextId s)
  | Release r => releaseId r s
  end.

Definition perform_all (qs : list request) (s : api) : api :=
  fold_left (fun s q => perform q s) qs s.

(** The ids of the [subscribeToSystemEvent] calls made for [name] in a trace. *)
Definition subscriptions (name : string) (t : list effect) : list Z :=
  omap (fun e =>
          match e with
          | subscribeToSystemEvent i n => if String.eqb n name then Some i else None
          | _ => None
          end) t.

(** The values a handler was called with in a trace. *)
Definition calls_of (h : handler) (t : list effect) : list value :=
  omap (fun e =>
          match e with
          | invoke h' v => if Nat.eqb h' h then Some v else None
          | _ => None
          end) t.

(** [key] is a key of the listener table that refers to an entry object. *)
Definition owned (s : api) (key : string) : Prop :=
  ∃ r, eventListeners s !! key = Some r ∧ (r < length (heap s))%nat.

(** *** trigger *)

(** The two calls that [trigger] makes on the handle; the object id
    ([OBJECT_ID_USER]), the priority and the group are constants. *)
Inductive transmission :=
| mapClientEventToSimEvent (eventID : Z) (triggerName : string)
| transmitClientEvent (eventID : Z) (v : value).

(** [trigger(triggerName, value = 0)]: the default applies when [value] is
    [undefined]. *)
Definition trigger (triggerName : string) (v : value) (s : api)
  : list transmission * api :=
  let v := match v with Undefined => Number 0 | _ => v end in
  let '(eventID, s1) := nextId s in
  ([mapClientEventToSimEvent eventID triggerName; transmitClientEvent eventID v], s1).

(** *** The response to a get *)

(** [codeSafe(string)] *)
Definition codeSafe (s : string) : string := replaceAll " " "_" s.

Section Response.

(** The payload of a ["simObjectData"] message, and [def.read(data)]. *)
Variable buffer : Type.
Variable read : simvar -> buffer -> value.



End Response.

(** *** connect *)

(** [opts.retries], a JavaScript number: an integer or [Infinity]. *)
Inductive count :=
| Finite (n : Z)
| Infinity.

(** [if (opts.retries)] *)
Definition nonzero (c : count) : bool :=
  match c with Finite n => negb (n =? 0)%Z | Infinity => true end.
(** [opts.retries--] *)
Definition decrement (c : count) : count :=
  match c with Finite n => Finite (n - 1) | Infinity => Infinity end.

(** What a [connect] call does besides changing the object: the two
    callbacks of [opts], the timer for the next attempt, and the facility
    subscription made by [addAirportHandling]. *)
Inductive connect_event :=
| onConnect
| onRetry (retries : count) (retryInterval : Z)
| retry_in (ms : Z)
| subscribeToFacilitiesEx1 (IN_RANGE OUT_OF_RANGE : Z).

Record connection := {
  this : api;
  connected : bool;            (* this.connected *)
  retries : count;             (* opts.retries, after the defaults *)
  retryInterval : Z;           (* opts.retryInterval *)
  events : list connect_event
}.

(** [addAirportHandling(handle)]: the two ids and the subscription. *)
Definition addAirportHandling (s : api) : (Z * Z) * api :=
  let '(IN_RANGE, s1) := nextId s in
  let '(OUT_OF_RANGE, s2) := nextId s1 in
  ((IN_RANGE, OUT_OF_RANGE), s2).

(** One call of [connect(opts)]; [opened] tells whether [open] gave a
    handle (it throws or gives none otherwise). *)
Definition connect (opened : bool) : M connection unit :=
  fun c =>
    if opened then
      let '((IN_RANGE, OUT_OF_RANGE), s) := addAirportHandling (this c) in
      (Return tt,
       {| this := s; connected := true; retries := retries c;
          retryInterval := retryInterval c;
          events := events c ++ [onConnect; subscribeToFacilitiesEx1 IN_RANGE OUT_OF_RANGE] |})
    else if nonzero (retries c) then
      let left := decrement (retries c) in
      (Return tt,
       {| this := this c; connected := connected c; retries := left;
          retryInterval := retryInterval c;
          events := events c ++ [onRetry left (retryInterval c);
                                 retry_in (1000 * retryInterval c)] |})
    else (Throw (Error "No connection to MSFS"), c).

(** The call made by the application followed by the calls made by the
    timers: [opens] lists the results of the successive [open] attempts.
    The first component is the outcome of each call, the first of them
    being what the application's [await api.connect(opts)] sees. *)
Fixpoint connect_attempts (opens : list bool) (c : connection)
  : list (outcome unit) * connection :=
  match opens with
  | [] => ([], c)
  | opened :: rest =>
      let '(o, c') := connect opened c in
      if negb opened && nonzero (retries c)
      then let '(os, c'') := connect_attempts rest c' in (o :: os, c'')
      else ([o], c')
  end.

(** *** The airport list listener of [addAirportHandling] *)

(** An ["airportList"] message; the list is under [airports] or, with the
    typo of the library, under [aiports]. *)
Record airportList := { requestID : Z; airports : value; aiports : value }.

Definition on_airportList (data : airportList) : M api unit :=
  fun s =>
    (* if (data.aiports) { data.airports ??= data.aiports; delete data.aiports; } *)
    let data_airports :=
      if truthy (aiports data)
      then match airports data with
           | Undefined | Null => aiports data
           | v => v
           end
      else airports data in
    (* this.eventListeners[id]?.handlers.forEach((handle) => handle(data.airports)) *)
    match get_property s (pretty (requestID data)) with
    | Absent => (Return tt, s)
    | Own r en =>
        forEach (fun h => modify (emit (invoke h data_airports))) (handlers en) s
    | Inherited =>
        (Throw (TypeError "Cannot read properties of undefined (reading 'forEach')"), s)
    end.

(** *** getSpecial *)

(** The calls that [getSpecial] and its listener make on the handle and
    the console; the listener is identified by the id it closes over. *)
Inductive special_call :=
| handle_on_airportList (getID : Z)
| handle_off_airportList (getID : Z)
| requestFacilitiesListEx1 (getID : Z)
| console_warn (msg : string).

(** What [getSpecial] returns: [undefined] when no branch returns, the
    array [[]], a promise that is resolved with [[]], or the promise of the
    [NEARBY_AIRPORTS] branch, which the listener for [getID] resolves. *)
Inductive special :=
| special_undefined
| special_empty_array
| special_resolved_empty
| special_pending (getID : Z).

(** [getSpecial(propName)]; the result of [propName.replaceAll(" ", "_")]
    is dropped, so the comparisons see the argument as it was passed.
    [AirportDB] is [this.AirportDB]. *)
Definition getSpecial (AirportDB : value) (propName : string) (s : api)
  : special * list special_call * api :=
  if String.eqb propName "NEARBY_AIRPORTS" then
    let '(getID, s1) := nextId s in
    (special_pending getID,
     [handle_on_airportList getID; requestFacilitiesListEx1 getID], s1)
  else if String.eqb propName "ALL_AIRPORTS" then
    (if negb (truthy AirportDB) then special_empty_array else special_resolved_empty,
     [console_warn "getSpecial(ALL_AIRPORTS) is not currently supported."], s)
  else (special_undefined, [], s).

(** The promise of the [NEARBY_AIRPORTS] branch and its listener:
    [nearby_listening] while the listener is on the handle, [nearby_value]
    the value of [NEARBY_AIRPORTS] in the object the promise was resolved
    with. *)
Record nearby := {
  nearby_listening : bool;
  nearby_value : option value;
  nearby_calls : list special_call
}.

Definition nearby_start : nearby :=
  {| nearby_listening := true; nearby_value := None; nearby_calls := [] |}.

(** [handler(data)] of the [NEARBY_AIRPORTS] branch. *)
Definition getSpecial_handler (getID : Z) (data : airportList) (st : nearby * api)
  : nearby * api :=
  let '(p, s) := st in
  if (requestID data =? getID)%Z then
    (* handle.off("airportList", handler); this.releaseId(getID);
       resolve({ NEARBY_AIRPORTS: data.airports ?? data.aiports }); *)
    ({| nearby_listening := false;
        nearby_value :=
          match nearby_value p with
          | Some v => Some v      (* a promise is resolved once *)
          | None =>
              Some match airports data with
                   | Undefined | Null => aiports data
                   | v => v
                   end
          end;
        nearby_calls := nearby_calls p ++ [handle_off_airportList getID] |},
     releaseId getID s)
  else st.

(** An ["airportList"] message emitted by the handle: the listener runs
    while it is registered. *)
Definition getSpecial_message (getID : Z) (st : nearby * api) (data : airportList)
  : nearby * api :=
  if nearby_listening (fst st) then getSpecial_handler getID data st else st.

End MSFS_API.

(** ** Doubles as integers

    Every finite double is an integer multiple of 2^-1074.  [scaled] gives
    that integer for a double in its specification form, and places the
    infinities beyond every finite double, so that doubles that are not
    [NaN] compare as their integers do. *)

Module Double.

Definition scaled (x : spec_float) : Z :=
  match x with
  | S754_zero _ => 0
  | S754_nan => 0
  | S754_infinity s => cond_Zopp s (2 ^ 2098)
  | S754_finite s m e => cond_Zopp s (Zpos m * 2 ^ (e + 1074))
  end.

Definition is_number (x : spec_float) : bool :=
  match x with S754_nan => false | _ => true end.

Definition rank (x : float) : Z := scaled (Prim2SF x).
(** [!Number.isNaN(x)] *)
Definition not_nan (x : float) : bool := is_number (Prim2SF x).

End Double.

(** ** The airport extension: [AirportHandler] *)

Module AirportHandler.

(** JavaScript numbers are IEEE 754 doubles: the operations [*], [/], [-],
    [<=] and [>] are those of the binary64 format with rounding to nearest
    (ties to even), which the primitive floats implement; a decimal literal
    stands for the double nearest to it. *)
Definition number := float.
Definition NaN : number := nan.

Definition mul (a b : number) : number := (a * b)%float.
Definition div (a b : number) : number := (a / b)%float.
Definition sub (a b : number) : number := (a - b)%float.
(** [a <= b] *)
Definition le (a b : number) : bool := (a <=? b)%float.
(** [a > 0] *)
Definition positive (a : number) : bool := (0 <? a)%float.

Definition KM_PER_NM : number := 1.852%float.
Definition FEET_PER_METERS : number := 3.28084%float.
(** [Math.PI] *)
Definition Math_PI : number := 3.141592653589793%float.
Definition degrees (rad : number) : number := mul (div rad Math_PI) 180%float.
Definition radians (deg : number) : number := mul (div deg 180%float) Math_PI.

Definition NEARBY_AIRPORTS : string := "NEARBY AIRPORTS".
Definition ALL_AIRPORTS : string := "ALL AIRPORTS".
Definition AIRPORT : string := "AIRPORT:".
Definition SPECIAL_VARS : list string := [ALL_AIRPORTS; NEARBY_AIRPORTS; AIRPORT].

(** The module-level id counter: [nextId] of the closure over [id], which
    starts at [startId]. *)
Definition startId : Z := 100.
Definition nextId (id : Z) : Z * Z :=
  let id := if (id >? 900)%Z then startId else id in
  (id, (id + 1)%Z).

(** *** Data *)

Record ILS := { ils_type : option string; ils_icao : string; ils_region : string }.
Record Approach := {
  designation : option string;
  marking : option string;
  approach_ILS : ILS
}.
Record Runway := {
  rw_latitude : number;
  rw_longitude : number;
  rw_altitude : number;
  heading : number;
  length : number;
  width : number;
  patternAltitude : number;
  slope : number;
  slopeTrue : number;
  surface : option string;
  approach : list Approach
}.
Record Airport := {
  icao : string;
  latitude : number;
  longitude : number;
  altitude : number;
  declination : number;
  name : string;
  name64 : string;
  region : string;
  runwayCount : Z;
  runways : list Runway
}.

(** An entry of a facility list page; only [icao] is read by the handler. *)
Record facility := { facility_icao : string; facility_latitude : number;
                     facility_longitude : number; facility_altitude : number }.

(** *** The paginated facility list *)

(** One ["airportList"] message. *)
Record airportList := {
  requestID : Z;
  airports : list facility;
  entryNumber : Z;
  outOf : Z
}.

(** The variables the page handler closes over: [list], whether the
    handler is still registered on the handle, and whether the promise it
    belongs to has been resolved. *)
Record listing := {
  list_ : list facility;
  registered : bool;
  resolved : bool
}.

Definition handler (requestId : Z) (st : listing) (data : airportList) : listing :=
  if (requestID data =? requestId)%Z then
    (* list.push(...airports); *)
    let l := list_ st ++ airports data in
    if (entryNumber data >=? outOf data - 1)%Z
    then (* handle.off("airportList", handler); resolve(); *)
      {| list_ := l; registered := false; resolved := true |}
    else {| list_ := l; registered := registered st; resolved := resolved st |}
  else st.

(** The handle calls a listener only while it is registered. *)
Definition deliver (requestId : Z) (st : listing) (data : airportList) : listing :=
  if registered st then handler requestId st data else st.

(** [handle.on("airportList", handler)] followed by the pages the
    simulator sends. *)
Definition receive (requestId : Z) (pages : list airportList) : listing :=
  fold_left (deliver requestId) pages
    {| list_ := []; registered := true; resolved := false |}.

(** The pages the handler acts on: those that carry its request id. *)
Definition mine (requestId : Z) (pages : list airportList) : list airportList :=
  filter (fun p => requestID p = requestId) pages.

(** *** The persisted database and [init] *)

Inductive level := log | error | warn.

(** A console line; [Progress remaining N] is the percentage line that
    [processAirports] prints for [list.length = remaining]. *)
Inductive line :=
| Line (l : level) (msg : string) (e : option exn)
| Progress (remaining N : nat).

Section Init.

(** Buffers, and the library functions applied to them: [zlib.gunzipSync]
    and [JSON.parse] may throw, [JSON.stringify] and [zlib.gzipSync] do
    not.  A file that parses holds what [init] writes, an array of
    airports.  [writeFileSync_error b] is the exception of
    [fs.writeFileSync(AIRPORT_DB_LOCATION, b)], if it throws.
    [details entry] is the airport that the simulator's facility data
    for [entry.icao] decodes to (the value [getAirportDetails] resolves
    with). *)
Variable bytes : Type.
Variable gunzip : bytes -> outcome bytes.
Variable JSON_parse : bytes -> outcome (list Airport).
Variable JSON_stringify : list Airport -> bytes.
Variable gzip : bytes -> bytes.
Variable writeFileSync_error : bytes -> option exn.
Variable details : facility -> Airport.

(** What is at [AIRPORT_DB_LOCATION]. *)
Inductive file :=
| Missing
| Unreadable (e : exn)
| Stored (content : bytes).

Record state := {
  this_airports : option (list Airport);   (* this.airports, None = undefined *)
  console : list line;
  closed : bool;                           (* handle.close() was called *)
  finished : nat;                          (* calls of finished() *)
  db : file
}.

Definition start (f : file) : state :=
  {| this_airports := None; console := []; closed := false; finished := O;
     db := f |}.

Definition print (l : line) : M state unit :=
  modify (fun s =>
    {| this_airports := this_airports s; console := console s ++ [l];
       closed := closed s; finished := finished s; db := db s |}).
Definition set_airports (a : list Airport) : M state unit :=
  modify (fun s =>
    {| this_airports := Some a; console := console s;
       closed := closed s; finished := finished s; db := db s |}).
Definition close : M state unit :=
  modify (fun s =>
    {| this_airports := this_airports s; console := console s;
       closed := true; finished := finished s; db := db s |}).
Definition call_finished : M state unit :=
  modify (fun s =>
    {| this_airports := this_airports s; console := console s;
       closed := closed s; finished := S (finished s); db := db s |}).

Definition existsSync : M state bool :=
  gets (fun s => match db s with Missing => false | _ => true end).
Definition readFileSync : M state bytes :=
  fun s =>
    match db s with
    | Stored b => (Return b, s)
    | Unreadable e => (Throw e, s)
    | Missing => (Throw (SystemError "ENOENT: no such file or directory"), s)
    end.
Definition writeFileSync (b : bytes) : M state unit :=
  fun s =>
    match writeFileSync_error b with
    | Some e => (Throw e, s)
    | None =>
        (Return tt,
         {| this_airports := this_airports s; console := console s;
            closed := closed s; finished := finished s; db := Stored b |})
    end.
(** [zlib.gunzipSync(zipped)], where [zipped] is [undefined] after a
    failed read. *)
Definition gunzipSync (zipped : option bytes) : M state bytes :=
  match zipped with
  | None => throw (TypeError "The buffer argument must be of type string or an instance of Buffer")
  | Some b => fun s => (gunzip b, s)
  end.
(** [JSON.parse(json)], where [json] is [undefined] after a failed
    decompression. *)
Definition parse (json : option bytes) : M state (list Airport) :=
  match json with
  | None => throw (SyntaxError "Unexpected token u in JSON at position 0")
  | Some b => fun s => (JSON_parse b, s)
  end.

(** [processAirports(list, resolve)]: one detail request at a time. *)
Fixpoint processAirports (N : nat) (list : list facility) : M state unit :=
  match list with
  | [] => ret tt
  | entry :: rest =>
      (print (Progress (Datatypes.length list) N) ;;;
       a <- gets this_airports ;;
       set_airports (default [] a ++ [details entry]) ;;;
       processAirports N rest)%js
  end.

(** The part of [init] after the cache block: the full rebuild. *)
Definition build (list : list facility) : M state unit :=
  (print (Line log "No airport database found: building a new one." None) ;;;
   set_airports [] ;;;
   processAirports (Datatypes.length list) list ;;;
   close ;;;
   a <- gets this_airports ;;
   let json := JSON_stringify (default [] a) in
   let zipped := gzip json in
   writeFileSync zipped ;;;
   call_finished)%js.

(** The cache block, [if (fs.existsSync(AIRPORT_DB_LOCATION)) {...}]:
    [true] when it ended in [return finished()]. *)
Definition load (airportCount : nat) : M state bool :=
  (zipped <- try_catch (z <- readFileSync ;; ret (Some z))
               (fun e => print (Line error "file read error:" (Some e)) ;;; ret None) ;;
   json <- try_catch (j <- gunzipSync zipped ;; ret (Some j))
             (fun e => print (Line error "zlib error:" (Some e)) ;;; ret None) ;;
   try_catch
     (a <- parse json ;;
      set_airports a ;;;
      close ;;;
      (if bool_decide (Datatypes.length a = airportCount) then ret tt
       else
         (print (Line warn
                   ("MSFS has " +:+ pretty airportCount +:+ " airports, db has "
                    +:+ pretty (Datatypes.length a) +:+ " airports.") None) ;;;
          print (Line warn
                   "You may need to update your version of msfs-simconnet-api-wrapper..."
                   None))) ;;;
      call_finished ;;;
      ret true)
     (fun e => print (Line log "JSON parse error:" (Some e)) ;;; ret false))%js.

(** [init], from the point where the facility list is complete. *)
Definition init (list : list facility) : M state unit :=
  let airportCount := Datatypes.length list in
  (there <- existsSync ;;
   done <- (if there : bool then load airportCount else ret false) ;;
   if done : bool then ret tt else build list)%js.

End Init.

(** *** Queries *)

(** [getVarArg(varName)]: the text after the first colon. *)
Definition getVarArg (varName : string) : option string :=
  if negb (includes ":" varName) then None
  else
    match indexOf ":" varName with
    | Some i => Some (substring (i + 1) varName)
    | None => Some varName
    end.

(** An element of the array that [getAllNearbyAirports] returns:
    [{ ...airport, distance }]. *)
Record found := { airport : Airport; distance : number }.

(** What [get] and [getAirport] return. *)
Inductive result :=
| undefined
| an_airport (a : Airport)
| airport_list (l : list Airport)
| found_list (l : list found)
| object (key : string) (v : result)   (* { [key]: v } *)
| empty_object.                        (* {} *)

(** [Array.prototype.sort(compare)]: the sort is stable; [x] goes after
    [y] only when [compare(x, y) > 0] (a [NaN] result counts as zero). *)
Fixpoint insert {A} (compare : A -> A -> number) (x : A) (l : list A) : list A :=
  match l with
  | [] => [x]
  | y :: rest =>
      if positive (compare x y) then y :: insert compare x rest else x :: l
  end.
Definition sort {A} (compare : A -> A -> number) (l : list A) : list A :=
  foldr (insert compare) [] l.

Section Queries.

(** [getDistanceBetweenPoints] of [utils.js] (imported as [dist]), and
    the conversion of a string to a number that [distanceNM * KM_PER_NM]
    performs when [distanceNM] is the text after the colon. *)
Variable dist : number -> number -> number -> number -> number.
Variable ToNumber : string -> number.

(** [lat] and [long] are the values that
    [this.api.get("PLANE_LATITUDE", "PLANE_LONGITUDE")] resolves with. *)
Definition getAllNearbyAirports (airports : list Airport) (lat long : number)
    (varName : string) : list found :=
  (* const distanceNM = getVarArg(varName) ?? 200; *)
  let KM :=
    match getVarArg varName with
    | Some text => mul (ToNumber text) KM_PER_NM
    | None => mul 200%float KM_PER_NM
    end in
  let found :=
    flat_map
      (fun airport =>
         let alat := radians (latitude airport) in
         let along := radians (longitude airport) in
         let d := dist lat long alat along in
         if le d KM
         then [{| airport := airport; distance := div d KM_PER_NM |}]
         else [])
      airports in
  sort (fun a b => sub (distance a) (distance b)) found.

Definition getAirport (airports : list Airport) (varName : string) : result :=
  let icao' := getVarArg varName in
  object varName
    match List.find
            (fun airport =>
               match icao' with
               | Some code => String.eqb (icao airport) code
               | None => false
               end)
            airports with
    | Some a => an_airport a
    | None => undefined
    end.

Definition get (airports : list Airport) (lat long : number) (varName : string)
  : result :=
  let propName := replaceAll " " "_" varName in
  if String.eqb varName ALL_AIRPORTS then
    object propName (airport_list airports)
  else if startsWith varName NEARBY_AIRPORTS then
    object propName (found_list (getAllNearbyAirports airports lat long varName))
  else if startsWith varName AIRPORT then
    object propName (getAirport airports varName)
  else empty_object.

End Queries.

(** [n] successive calls of the module's [nextId()], from the counter value
    [id]: the ids returned and the counter left. *)
Fixpoint nextIds (n : nat) (id : Z) : list Z * Z :=
  match n with
  | O => ([], id)
  | S n' =>
      let '(r, id') := nextId id in
      let '(rs, id'') := nextIds n' id' in
      (r :: rs, id'')
  end.

(** *** getAirportHandler *)

(** [handler.supports(name)] *)
Definition supports (name : string) : bool :=
  if bool_decide (name ∈ SPECIAL_VARS) then true
  else if startsWith name NEARBY_AIRPORTS then true
  else if startsWith name AIRPORT then true
  else false.

(** The [name] fields of [AirportEvents] (the first is spelled as in the
    source). *)
Definition AIRPORTS_IN_RANGE_name : string := "AirportsInRage".
Definition AIRPORTS_OUT_OF_RANGE_name : string := "AirportsOutOfRange".

(** The ["airportList"] listener that [getAirportHandler] puts on the API's
    handle; [IN_RANGE] and [OUT_OF_RANGE] are the two ids it took from
    [api.nextId()], [id] and [list] are the [requestID] and the [airports]
    of the message. *)
Definition on_airportList (IN_RANGE OUT_OF_RANGE : Z) (id : Z) (list : value)
  : M MSFS_API.api unit :=
  fun s =>
    if (id =? IN_RANGE)%Z || (id =? OUT_OF_RANGE)%Z then
      let eventName :=
        if (id =? IN_RANGE)%Z then AIRPORTS_IN_RANGE_name
        else AIRPORTS_OUT_OF_RANGE_name in
      (* api.eventListeners[eventName]?.handlers.forEach((handle) => handle(airports)) *)
      match MSFS_API.get_property s eventName with
      | MSFS_API.Absent => (Return tt, s)
      | MSFS_API.Own r en =>
          forEach (fun h => modify (MSFS_API.emit (MSFS_API.invoke h list)))
            (MSFS_API.handlers en) s
      | MSFS_API.Inherited =>
          (Throw (TypeError "Cannot read properties of undefined (reading 'forEach')"), s)
      end
    else (Return tt, s).

(** *** The tables of constants.js

    [RUNWAY_SURFACES] is an array of 32 labels with one more element set at
    index 254; reading an array at an index it has no element for gives
    [undefined]. *)
Definition RUNWAY_SURFACES_labels : list string :=
  [ "concrete"; "grass"; "water fsx"; "grass bumpy"; "asphalt"; "short grass";
    "long grass"; "hard turf"; "snow"; "ice"; "urban"; "forest"; "dirt"; "coral";
    "gravel"; "oil treated"; "steel mats"; "bituminus"; "brick"; "macadam";
    "planks"; "sand"; "shale"; "tarmac"; "wright flyer track"; "ocean"; "water";
    "pond"; "lake"; "river"; "waste water"; "paint" ].

Definition RUNWAY_SURFACES (i : Z) : option string :=
  if (i =? 254)%Z then Some "unknown"
  else if (i <? 0)%Z then None
  else RUNWAY_SURFACES_labels !! Z.to_nat i.

Definition RUNWAY_NUMBER_labels : list string :=
  [ "none"; "1"; "2"; "3"; "4"; "5"; "6"; "7"; "8"; "9"; "10"; "11"; "12"; "13";
    "14"; "15"; "16"; "17"; "18"; "19"; "20"; "21"; "22"; "23"; "24"; "25"; "26";
    "27"; "28"; "29"; "30"; "31"; "32"; "33"; "34"; "35"; "36"; "north";
    "northeast"; "east"; "southeast"; "south"; "southwest"; "west"; "northwest";
    "last" ].

Definition RUNWAY_NUMBER (i : Z) : option string :=
  if (i <? 0)%Z then None else RUNWAY_NUMBER_labels !! Z.to_nat i.

Definition RUNWAY_DESIGNATOR_labels : list string :=
  [ "none"; "left"; "right"; "center"; "water"; "a"; "b"; "last" ].

Definition RUNWAY_DESIGNATOR (i : Z) : option string :=
  if (i <? 0)%Z then None else RUNWAY_DESIGNATOR_labels !! Z.to_nat i.

Definition ILS_TYPES (i : Z) : option string :=
  if (i =? 0)%Z then Some "none"
  else if (i =? 65)%Z then Some "airport"
  else if (i =? 86)%Z then Some "VOR"
  else if (i =? 78)%Z then Some "NDB"
  else if (i =? 87)%Z then Some "waypoint"
  else None.

(** *** Decoding a runway record *)

Section Decoder.

(** The cursor over a facility data record ([RawBuffer]) and its reads:
    each returns the value read and the cursor behind it. *)
Variable RawBuffer : Type.
Variable readFloat64 readFloat32 : RawBuffer -> number * RawBuffer.
Variable readInt32 : RawBuffer -> Z * RawBuffer.
Variable readString8 : RawBuffer -> string * RawBuffer.

(** One approach block: number, designator, ILS type, ILS icao, ILS region. *)
Definition readApproach (data : RawBuffer) : Approach * RawBuffer :=
  let '(number_index, data) := readInt32 data in
  let '(designator_index, data) := readInt32 data in
  let '(ils_type_index, data) := readInt32 data in
  let '(ils_icao', data) := readString8 data in
  let '(ils_region', data) := readString8 data in
  ({| designation := RUNWAY_DESIGNATOR designator_index;
      marking := RUNWAY_NUMBER number_index;
      approach_ILS := {| ils_type := ILS_TYPES ils_type_index;
                         ils_icao := ils_icao';
                         ils_region := ils_region' |} |},
   data).

(** [addAirportRunway(data, airportData)] on the [runways] of
    [airportData]. *)
Definition addAirportRunway (data : RawBuffer) (runways : list Runway)
  : list Runway * RawBuffer :=
  let '(latitude', data) := readFloat64 data in
  let '(longitude', data) := readFloat64 data in
  let '(altitude', data) := readFloat64 data in
  let '(heading', data) := readFloat32 data in
  let '(length', data) := readFloat32 data in
  let '(width', data) := readFloat32 data in
  let '(patternAltitude', data) := readFloat32 data in
  let '(slope', data) := readFloat32 data in
  let '(slopeTrue', data) := readFloat32 data in
  let '(surface_index, data) := readInt32 data in
  let '(primary, data) := readApproach data in
  let '(secondary, data) := readApproach data in
  (runways ++
   [{| rw_latitude := latitude';
       rw_longitude := longitude';
       rw_altitude := mul altitude' FEET_PER_METERS;
       heading := heading';
       length := length';
       width := width';
       patternAltitude := patternAltitude';
       slope := degrees slope';
       slopeTrue := degrees slopeTrue';
       surface := RUNWAY_SURFACES surface_index;
       approach := [primary; secondary] |}],
   data).

End Decoder.

End AirportHandler.

(** * Properties *)

Import MSFS_API.
Local Open Scope Z_scope.

(** ** The id allocator *)

(** The loop of [nextId] stops at the first candidate that is not reserved.
    [X] is the part of [reserved] that the loop can still meet: it shrinks by
    one element per iteration, so [size X] iterations are enough. *)
Lemma nextId_loop_free (n : nat) (R X : gset Z) (i : Z) :
  (∀ k, k ∈ R → i ≤ k → k ∈ X) →
  (size X ≤ n)%nat →
  ∃ r, nextId_loop n R i (i + 1) = (r, r + 1)
       ∧ i ≤ r ∧ (r ∉ R) ∧ ∀ k, i ≤ k < r → k ∈ R.
Proof.
  revert X i. induction n as [|n IH]; intros X i Hcover Hsize; simpl.
  - exists i. split; [done|]. split; [lia|]. split; [|intros; lia].
    intros Hin. apply Hcover in Hin; [|lia].
    assert (size X = 0%nat) as HX by lia.
    apply size_empty_inv in HX. set_solver.
  - destruct (decide (i ∈ R)) as [Hin|Hnin].
    + destruct (IH (X ∖ {[i]}) (i + 1)) as (r & Heq & Hle & Hfree & Hbelow).
      * intros k Hk Hik. apply elem_of_difference. split.
        -- apply Hcover; [done|lia].
        -- rewrite elem_of_singleton. lia.
      * assert (i ∈ X) by (apply Hcover; [done|lia]).
        rewrite size_difference by set_solver.
        rewrite size_singleton. lia.
      * exists r. split; [done|]. split; [lia|]. split; [done|].
        intros k Hk. destruct (decide (k = i)) as [->|]; [done|].
        apply Hbelow. lia.
    + exists i. split; [done|]. split; [lia|]. split; [done|]. intros; lia.
Qed.

(** [nextId] returns the least unreserved value at or above the counter
    (after its reset), reserves it and leaves the counter just above it. *)
Lemma nextId_least (s : api) :
  let start := if id s >? 900 then 0 else id s in
  ∃ r, nextId s = (r, set_reserved ({[r]} ∪ reserved s) (set_id (r + 1) s))
       ∧ start ≤ r ∧ (r ∉ reserved s)
       ∧ ∀ k, start ≤ k < r → k ∈ reserved s.
Proof.
  intros start. unfold nextId. fold start.
  destruct (nextId_loop_free (size (reserved s)) (reserved s) (reserved s) start)
    as (r & Heq & Hle & Hfree & Hbelow); [done|done|].
  rewrite Heq. eauto.
Qed.

Lemma releaseId_id (r : Z) (s : api) : id (releaseId r s) = id s.
Proof. reflexivity. Qed.

(** The counter is positive after [new MSFS_API()] and stays so. *)
Lemma run_counter_positive (calls : list call) (s : api) :
  1 ≤ id s →
  Forall (fun a => 1 ≤ id (before a)) (fst (run calls s)).
Proof.
  revert s. induction calls as [|c calls IH]; intros s Hs; simpl; [constructor|].
  destruct c as [|r].
  - destruct (nextId_least s) as (r & Heq & Hle & _). rewrite Heq.
    specialize (IH (set_reserved ({[r]} ∪ reserved s) (set_id (r + 1) s))).
    destruct (run calls _) as [log s'']. simpl in *.
    constructor; [done|]. apply IH.
    destruct (id s >? 900); lia.
  - apply IH. by rewrite releaseId_id.
Qed.

(** C1. For every sequence of [nextId()] and [releaseId()] calls, from any
    state of the object, the value that a [nextId()] call returns is not in
    the reserved set of the state it was called in, and is in the reserved
    set of the state it leaves. *)
Theorem nextId_returns_unreserved (calls : list call) (s : api) :
  Forall (fun a => (returned a ∉ reserved (before a))
                   ∧ (returned a ∈ reserved (after a)))
         (fst (run calls s)).
Proof.
  revert s. induction calls as [|c calls IH]; intros s; simpl; [constructor|].
  destruct c as [|r]; [|apply IH].
  destruct (nextId_least s) as (r & Heq & _ & Hfree & _). rewrite Heq.
  specialize (IH (set_reserved ({[r]} ∪ reserved s) (set_id (r + 1) s))).
  destruct (run calls _) as [log s'']. simpl in *.
  constructor; [|done]. simpl. split; [done|set_solver].
Qed.

(** C2, as stated, fails: [new MSFS_API()] followed by 902 calls of
    [nextId()] returns 1, ..., 900, then 0 (the counter is reset to 0, not
    to 1) and then 901 (every value up to 900 is reserved and the loop does
    not stop at the ceiling). *)
Lemma nextId_range_counterexample :
  let ids := map returned (fst (run (replicate 902 NextId) init)) in
  ids !! 900%nat = Some 0
  ∧ ids !! 901%nat = Some 901
  ∧ ¬ Forall (fun r => 1 ≤ r ≤ 900) ids.
Proof.
  intros ids.
  assert (ids !! 900%nat = Some 0) as H0 by (vm_compute; reflexivity).
  assert (ids !! 901%nat = Some 901) as H1 by (vm_compute; reflexivity).
  split; [done|]. split; [done|].
  intros Hall. rewrite Forall_lookup in Hall.
  specialize (Hall _ _ H0). lia.
Qed.

(** C2, amended.  Along every sequence of calls on a new object, the value
    [r] that [nextId()] returns is the least unreserved integer at or above
    [start], the counter after its reset: [start] is 0 when the counter
    exceeds 900 (so 0 is returned when it is free) and the counter
    otherwise; [r] is never negative, and it lies in 0..900 whenever some
    value from [start] to 900 is unreserved. *)
Theorem nextId_range (calls : list call) :
  Forall (fun a =>
            let r := returned a in
            let start := if id (before a) >? 900 then 0 else id (before a) in
            0 ≤ start ≤ 900
            ∧ start ≤ r
            ∧ (r ∉ reserved (before a))
            ∧ (∀ k, start ≤ k < r → k ∈ reserved (before a))
            ∧ ((∃ k, start ≤ k ≤ 900 ∧ k ∉ reserved (before a)) → 0 ≤ r ≤ 900))
         (fst (run calls init)).
Proof.
  assert (∀ s, Forall (fun a => 1 ≤ id (before a)) (fst (run calls s)) →
    Forall (fun a =>
            let r := returned a in
            let start := if id (before a) >? 900 then 0 else id (before a) in
            0 ≤ start ≤ 900
            ∧ start ≤ r
            ∧ (r ∉ reserved (before a))
            ∧ (∀ k, start ≤ k < r → k ∈ reserved (before a))
            ∧ ((∃ k, start ≤ k ≤ 900 ∧ k ∉ reserved (before a)) → 0 ≤ r ≤ 900))
         (fst (run calls s))) as Hgen.
  { induction calls as [|c calls IH]; intros s Hpos; simpl in *; [constructor|].
    destruct c as [|x]; [|by apply IH].
    destruct (nextId_least s) as (r & Heq & Hle & Hfree & Hbelow).
    rewrite Heq in *.
    specialize (IH (set_reserved ({[r]} ∪ reserved s) (set_id (r + 1) s))).
    destruct (run calls _) as [log s'']. simpl in *.
    apply Forall_cons in Hpos as [Hs Hpos]. simpl in Hs.
    constructor; [|by apply IH]. simpl.
    assert (0 ≤ (if id s >? 900 then 0 else id s) ≤ 900) as Hstart.
    { destruct (Z.gtb_spec (id s) 900); lia. }
    split; [done|]. split; [done|]. split; [done|]. split; [done|].
    intros (k & Hk & Hkfree). split; [lia|].
    destruct (decide (r ≤ 900)) as [|Hbig]; [done|].
    exfalso. apply Hkfree, Hbelow. lia. }
  apply Hgen, run_counter_positive. simpl. lia.
Qed.

(** ** The paginated facility list *)

Lemma deliver_unregistered (requestId : Z) (st : AirportHandler.listing)
    (pages : list AirportHandler.airportList) :
  AirportHandler.registered st = false →
  fold_left (AirportHandler.deliver requestId) pages st = st.
Proof.
  intros Hst. induction pages as [|q pages IH]; simpl; [done|].
  unfold AirportHandler.deliver at 2. by rewrite Hst.
Qed.

(** While no page with [entryNumber >= outOf - 1] has arrived for the
    request, the handler stays registered and [list] holds the entries of
    every page of the request, in order. *)
Lemma deliver_before_last (requestId : Z) (st : AirportHandler.listing)
    (pages : list AirportHandler.airportList) :
  AirportHandler.registered st = true →
  Forall (fun q => ¬ (AirportHandler.requestID q = requestId
                      ∧ AirportHandler.outOf q - 1 ≤ AirportHandler.entryNumber q))
         pages →
  fold_left (AirportHandler.deliver requestId) pages st
  = {| AirportHandler.list_ :=
         AirportHandler.list_ st
         ++ concat (map AirportHandler.airports (AirportHandler.mine requestId pages));
       AirportHandler.registered := true;
       AirportHandler.resolved := AirportHandler.resolved st |}.
Proof.
  revert st. induction pages as [|q pages IH]; intros st Hst Hall; simpl.
  - rewrite app_nil_r. destruct st; simpl in *; by subst.
  - apply Forall_cons in Hall as [Hq Hall].
    unfold AirportHandler.deliver at 2, AirportHandler.handler.
    rewrite Hst. unfold AirportHandler.mine.
    destruct (Z.eqb_spec (AirportHandler.requestID q) requestId) as [Heq|Hne].
    + rewrite filter_cons_True by done.
      destruct (Z.geb_spec (AirportHandler.entryNumber q) (AirportHandler.outOf q - 1))
        as [Hge|Hlt].
      * exfalso. apply Hq. split; [done|lia].
      * rewrite IH by done. simpl. by rewrite <- app_assoc.
    + rewrite filter_cons_False by done. by apply IH.
Qed.

(** C3. Let the pages sent by the simulator be [pre ++ p :: post], where [p]
    is the first page of the request with [entryNumber >= outOf - 1].  After
    every prefix of [pre] the handler is still registered, the promise is
    not resolved and [list] holds the entries of each page of the request
    seen so far; at [p] the entries of [p] are added, the handler is removed
    and the promise resolved; the pages of [post] change nothing. *)
Theorem airport_list_pagination (requestId : Z)
    (pre post : list AirportHandler.airportList) (p : AirportHandler.airportList) :
  Forall (fun q => ¬ (AirportHandler.requestID q = requestId
                      ∧ AirportHandler.outOf q - 1 ≤ AirportHandler.entryNumber q))
         pre →
  AirportHandler.requestID p = requestId →
  AirportHandler.outOf p - 1 ≤ AirportHandler.entryNumber p →
  (∀ k : nat,
     AirportHandler.receive requestId (take k pre)
     = {| AirportHandler.list_ :=
            concat (map AirportHandler.airports
                      (AirportHandler.mine requestId (take k pre)));
          AirportHandler.registered := true;
          AirportHandler.resolved := false |})
  ∧ AirportHandler.receive requestId (pre ++ [p])
    = {| AirportHandler.list_ :=
           concat (map AirportHandler.airports
                     (AirportHandler.mine requestId pre))
           ++ AirportHandler.airports p;
         AirportHandler.registered := false;
         AirportHandler.resolved := true |}
  ∧ AirportHandler.receive requestId (pre ++ p :: post)
    = AirportHandler.receive requestId (pre ++ [p]).
Proof.
  intros Hpre Hid Hlast.
  assert (AirportHandler.receive requestId (pre ++ [p])
          = {| AirportHandler.list_ :=
                 concat (map AirportHandler.airports
                           (AirportHandler.mine requestId pre))
                 ++ AirportHandler.airports p;
               AirportHandler.registered := false;
               AirportHandler.resolved := true |}) as Hp.
  { unfold AirportHandler.receive. rewrite fold_left_app.
    rewrite (deliver_before_last requestId _ pre); [|reflexivity|exact Hpre]. simpl.
    unfold AirportHandler.deliver, AirportHandler.handler. simpl.
    rewrite (proj2 (Z.eqb_eq _ _) Hid).
    destruct (Z.geb_spec (AirportHandler.entryNumber p) (AirportHandler.outOf p - 1));
      [done|lia]. }
  split; [|split; [done|]].
  - intros k. unfold AirportHandler.receive.
    rewrite deliver_before_last; [reflexivity|reflexivity|]. by apply Forall_take.
  - rewrite Hp. unfold AirportHandler.receive in *.
    rewrite fold_left_app in *. simpl in *. rewrite Hp.
    by apply deliver_unregistered.
Qed.

(** C3 at [outOf = 3]: the pages 0, 1 and 2 of the request (with a page of
    another request in between) are accumulated, the page after them is not. *)
Lemma airport_list_pagination_witness :
  let entry c := {| AirportHandler.facility_icao := c;
                    AirportHandler.facility_latitude := 0%float;
                    AirportHandler.facility_longitude := 0%float;
                    AirportHandler.facility_altitude := 0%float |} in
  let page i n l := {| AirportHandler.requestID := i;
                       AirportHandler.airports := l;
                       AirportHandler.entryNumber := n;
                       AirportHandler.outOf := 3 |} in
  AirportHandler.receive 100
    [page 100 0 [entry "KSEA"]; page 7 0 [entry "EHAM"]; page 100 1 [entry "KBFI"];
     page 100 2 [entry "KPAE"]; page 100 3 [entry "KRNT"]]
  = {| AirportHandler.list_ := [entry "KSEA"; entry "KBFI"; entry "KPAE"];
       AirportHandler.registered := false;
       AirportHandler.resolved := true |}.
Proof.
  intros entry page.
  pose proof (airport_list_pagination 100
    [page 100 0 [entry "KSEA"]; page 7 0 [entry "EHAM"]; page 100 1 [entry "KBFI"]]
    [page 100 3 [entry "KRNT"]] (page 100 2 [entry "KPAE"])) as H.
  destruct H as (_ & Hp & Hpost).
  - repeat constructor; simpl; lia.
  - reflexivity.
  - simpl; lia.
  - etransitivity; [exact Hpost|]. etransitivity; [exact Hp|]. reflexivity.
Defined.

(** ** The event multiplexer *)

Lemma get_property_Own (s : api) (key : string) (r : nat) (en : entry) :
  get_property s key = Own r en ↔
  eventListeners s !! key = Some r ∧ heap s !! r = Some en.
Proof.
  unfold get_property. split.
  - destruct (eventListeners s !! key) as [r'|] eqn:He.
    + destruct (heap s !! r') as [en'|] eqn:Hheap; [|done].
      intros [= -> ->]. done.
    + case_bool_decide; done.
  - intros [-> ->]. done.
Qed.

Lemma owned_get_property (s : api) (key : string) :
  owned s key ↔ ∃ r en, get_property s key = Own r en.
Proof.
  split.
  - intros (r & He & Hr). apply lookup_lt_is_Some_2 in Hr as [en Hen].
    exists r, en. by apply get_property_Own.
  - intros (r & en & H). apply get_property_Own in H as [He Hen].
    exists r. split; [done|]. by apply lookup_lt_Some in Hen.
Qed.

Lemma subscriptions_app (name : string) (t u : list effect) :
  subscriptions name (t ++ u) = subscriptions name t ++ subscriptions name u.
Proof. apply omap_app. Qed.

Lemma subscriptions_invokes (name : string) (d : value) (hs : list handler) :
  subscriptions name (map (fun h => invoke h d) hs) = [].
Proof. induction hs; simpl; auto. Qed.

(** Dispatching to the handlers of an entry calls each of them once, in
    registration order, and touches nothing else. *)
Lemma forEach_invoke (d : value) (hs : list handler) (s : api) :
  forEach (fun h => modify (emit (invoke h d))) hs s
  = (Return tt,
     {| id := id s; reserved := reserved s; eventListeners := eventListeners s;
        heap := heap s; trace := trace s ++ map (fun h => invoke h d) hs |}).
Proof.
  revert s. induction hs as [|h hs IH]; intros s; simpl.
  - unfold ret. rewrite app_nil_r. by destruct s.
  - unfold bind, modify. rewrite IH. simpl. by rewrite <- app_assoc.
Qed.

(** Entries are never removed from the listener table, and while [name] has
    one, nothing subscribes to [name]. *)
Lemma perform_owned (q : request) (s : api) (name : string) :
  owned s name →
  owned (perform q s) name
  ∧ subscriptions name (trace (perform q s)) = subscriptions name (trace s).
Proof.
  intros Hown. pose proof Hown as (r0 & He0 & Hr0).
  destruct q as [n h|n h|ev| |x]; simpl.
  - unfold addEventListener.
    destruct (get_property s n) as [|r en|] eqn:Hn; simpl; [| |done].
    + assert (n ≠ name) as Hne.
      { intros ->. apply owned_get_property in Hown as (? & ? & ?). congruence. }
      destruct (nextId_least s) as (i & Heq & _). rewrite Heq. simpl.
      split.
      * unfold owned. simpl. rewrite length_app. simpl.
        destruct (decide (pretty i = name)) as [<-|Hp].
        -- rewrite lookup_insert_eq. eexists; split; [done|lia].
        -- rewrite lookup_insert_ne by done. rewrite lookup_insert_ne by done.
           exists r0. split; [done|lia].
      * rewrite subscriptions_app. simpl.
        destruct (String.eqb_spec n name); [done|]. by rewrite app_nil_r.
    + destruct (truthy (data en)); simpl.
      * split.
        -- unfold owned. simpl. rewrite length_insert. eauto.
        -- rewrite subscriptions_app. simpl. by rewrite app_nil_r.
      * split; [|done]. unfold owned. simpl. rewrite length_insert. eauto.
  - unfold off, removeEventListener.
    destruct (get_property s n) as [|r en|] eqn:Hn; simpl; [done| |done].
    destruct (findIndex h (handlers en)); simpl; [|done].
    split; [|done]. unfold owned. simpl. rewrite length_insert. eauto.
  - unfold handleSystemEvent.
    destruct (get_property s (pretty (clientEventId ev))) as [|r en|] eqn:Hn;
      simpl; [| |done].
    + split; [done|]. rewrite subscriptions_app. simpl. by rewrite app_nil_r.
    + rewrite forEach_invoke. simpl. split.
      * unfold owned. simpl. rewrite length_insert. eauto.
      * rewrite subscriptions_app, subscriptions_invokes. by rewrite app_nil_r.
  - destruct (nextId_least s) as (i & Heq & _). rewrite Heq. simpl. done.
  - done.
Qed.

Lemma perform_all_owned (qs : list request) (s : api) (name : string) :
  owned s name →
  owned (perform_all qs s) name
  ∧ subscriptions name (trace (perform_all qs s)) = subscriptions name (trace s).
Proof.
  revert s. induction qs as [|q qs IH]; intros s Hown; simpl; [done|].
  destruct (perform_owned q s name Hown) as [Hown' Hsub].
  destruct (IH _ Hown') as [Hown'' Hsub'']. split; [done|]. congruence.
Qed.

(** A registration that returns leaves an entry under the name, for good. *)
Lemma registered_stays_owned (s s1 : api) (name : string) (h : handler)
    (qs : list request) :
  addEventListener name h s = (Return tt, s1) →
  owned (perform_all qs s1) name.
Proof.
  intros Hadd. apply perform_all_owned. revert Hadd. unfold addEventListener.
  destruct (get_property s name) as [|r en|] eqn:Hn; [| |done].
  - destruct (nextId_least s) as (i & Heq & _). rewrite Heq. simpl.
    intros [= <-]. unfold owned. simpl. rewrite length_app. simpl.
    destruct (decide (pretty i = name)) as [<-|Hp].
    + rewrite lookup_insert_eq. eexists; split; [done|lia].
    + rewrite lookup_insert_ne by done. rewrite lookup_insert_eq.
      eexists; split; [done|lia].
  - apply get_property_Own in Hn as [He Hr]. apply lookup_lt_Some in Hr.
    destruct (truthy (data en)); intros [= <-]; unfold owned; simpl;
      rewrite length_insert; eauto.
Qed.

(** C4. When [eventName] has no subscription ([e[eventName]] is undefined),
    [addEventListener] makes one [subscribeToSystemEvent] call for it; and
    whatever is done with the object afterwards (registrations of any number
    of further handlers for the name among it), no other subscribe call for
    [eventName] is ever made. *)
Theorem one_subscription_per_event_name (s : api) (eventName : string)
    (eventHandler : handler) :
  get_property s eventName = Absent →
  ∃ eventID s1,
    addEventListener eventName eventHandler s = (Return tt, s1)
    ∧ trace s1 = trace s ++ [subscribeToSystemEvent eventID eventName]
    ∧ ∀ qs : list request,
        subscriptions eventName (trace (perform_all qs s1))
        = subscriptions eventName (trace s) ++ [eventID].
Proof.
  intros Habsent.
  destruct (addEventListener eventName eventHandler s) as [o s1] eqn:Hadd.
  pose proof Hadd as Hadd'. unfold addEventListener in Hadd'.
  rewrite Habsent in Hadd'.
  destruct (nextId_least s) as (i & Heq & _). rewrite Heq in Hadd'. simpl in Hadd'.
  injection Hadd' as <- <-.
  eexists i, _. split; [reflexivity|]. split; [reflexivity|].
  intros qs.
  pose proof (registered_stays_owned _ _ _ _ [] Hadd) as Hown.
  change (perform_all [] ?x) with x in Hown.
  destruct (perform_all_owned qs _ eventName Hown) as [_ ->].
  simpl. rewrite subscriptions_app. simpl.
  by rewrite String.eqb_refl.
Qed.

(** C4 on a new object, for the event name ["Pause"]. *)
Lemma one_subscription_per_event_name_witness :
  get_property init "Pause" = Absent
  ∧ ∃ eventID s1,
      addEventListener "Pause" 1%nat init = (Return tt, s1)
      ∧ trace s1 = trace init ++ [subscribeToSystemEvent eventID "Pause"]
      ∧ ∀ qs : list request,
          subscriptions "Pause" (trace (perform_all qs s1))
          = subscriptions "Pause" (trace init) ++ [eventID].
Proof.
  split; [reflexivity|].
  apply (one_subscription_per_event_name init "Pause" 1%nat). reflexivity.
Defined.

(** What a registration for a name that has an entry does: the handler is
    appended, and it is called with the stored [data] exactly when that
    value is truthy. *)
Lemma addEventListener_existing (s : api) (eventName : string) (h : handler)
    (r : nat) (en : entry) :
  get_property s eventName = Own r en →
  ∃ s', addEventListener eventName h s = (Return tt, s')
        ∧ heap s' = <[r := with_handlers (handlers en ++ [h]) en]> (heap s)
        ∧ trace s' = trace s ++ (if truthy (data en) then [invoke h (data en)] else []).
Proof.
  intros Hn. unfold addEventListener. rewrite Hn.
  destruct (truthy (data en)); eexists; (split; [reflexivity|]); simpl;
    (split; [reflexivity|]); [done|by rewrite app_nil_r].
Qed.

(** C5 fails on the code when the last dispatched value is falsy.  On a new
    object, a handler is registered for ["Pause"] (event id 1), the
    simulator dispatches the value 0 for it (the first handler is called
    with 0, and 0 is stored as the entry's [data]), then a second handler
    is registered: the registration returns without calling it. *)
Theorem late_listener_after_zero :
  let s1 := perform (Add "Pause" 1%nat) init in
  let s2 := perform (Event {| clientEventId := 1; event_data := Number 0 |}) s1 in
  let s3 := perform (Add "Pause" 2%nat) s2 in
  trace s2 = [subscribeToSystemEvent 1 "Pause"; invoke 1%nat (Number 0)]
  ∧ (∃ r en, get_property s2 "Pause" = Own r en ∧ data en = Number 0)
  ∧ addEventListener "Pause" 2%nat s2 = (Return tt, s3)
  ∧ trace s3 = trace s2
  ∧ calls_of 2%nat (trace s3) = [].
Proof.
  intros s1 s2 s3.
  split; [vm_compute; reflexivity|].
  split; [eexists _, _; split; vm_compute; reflexivity|].
  split; [vm_compute; reflexivity|].
  split; vm_compute; reflexivity.
Qed.

(** A name that is not the decimal string of an integer gets a key in the
    listener table only by a registration for it. *)
Lemma never_registered_no_key (qs : list request) (s : api) (name : string) :
  eventListeners s !! name = None →
  (∀ i : Z, pretty i ≠ name) →
  Forall (fun q => ∀ h, q ≠ Add name h) qs →
  eventListeners (perform_all qs s) !! name = None.
Proof.
  intros Hnone Hname Hqs. revert s Hnone.
  induction Hqs as [|q qs Hq _ IH]; intros s Hnone; simpl; [done|].
  apply IH. destruct q as [n h|n h|ev| |x]; simpl.
  - unfold addEventListener.
    destruct (get_property s n) as [|r en|]; simpl; [| |done].
    + destruct (nextId_least s) as (i & Heq & _). rewrite Heq. simpl.
      rewrite lookup_insert_ne by apply Hname.
      rewrite lookup_insert_ne; [done|]. intros ->. by apply (Hq h).
    + by destruct (truthy (data en)).
  - unfold off, removeEventListener.
    destruct (get_property s n) as [|r en|]; simpl; [done| |done].
    by destruct (findIndex h (handlers en)).
  - unfold handleSystemEvent.
    destruct (get_property s (pretty (clientEventId ev))) as [|r en|];
      simpl; [done| |done].
    by rewrite forEach_invoke.
  - destruct (nextId_least s) as (i & Heq & _). by rewrite Heq.
  - done.
Qed.

(** C10. [off(eventName, handler)] throws a [TypeError] (and changes
    nothing) when the listener table has no entry under [eventName], and
    returns when it has one. *)
Theorem off_without_entry_throws (s : api) (eventName : string)
    (eventHandler : handler) :
  ((∀ r en, get_property s eventName ≠ Own r en) →
   ∃ msg, off eventName eventHandler s = (Throw (TypeError msg), s))
  ∧ ((∃ r en, get_property s eventName = Own r en) →
     ∃ s', off eventName eventHandler s = (Return tt, s')).
Proof.
  unfold off, removeEventListener. split.
  - intros Hno. destruct (get_property s eventName) as [|r en|]; eauto.
    by destruct (Hno r en).
  - intros (r & en & ->). destruct (findIndex eventHandler (handlers en)); eauto.
Qed.

(** C10 on an object that has a listener for ["Sim"] and has dispatched an
    event to it, but never had one for ["Pause"]: [off("Pause", h)] throws;
    [off("Sim", h)] returns. *)
Lemma off_without_entry_throws_witness :
  let s := perform_all [Add "Sim" 1%nat;
                        Event {| clientEventId := 1; event_data := Number 1 |};
                        Allocate] init in
  (∀ r en, get_property s "Pause" ≠ Own r en)
  ∧ (∃ msg, off "Pause" 1%nat s = (Throw (TypeError msg), s))
  ∧ (∃ s', off "Sim" 1%nat s = (Return tt, s')).
Proof.
  intros s.
  assert (∀ r en, get_property s "Pause" ≠ Own r en) as H.
  { intros r en Hown. vm_compute in Hown. discriminate. }
  split; [exact H|]. split.
  - exact (proj1 (off_without_entry_throws s "Pause" 1%nat) H).
  - apply (proj2 (off_without_entry_throws s "Sim" 1%nat)).
    eexists _, _. vm_compute. reflexivity.
Defined.

(** ** get and set of an unknown property *)

Lemma string_app_assoc (a b c : string) : (a +:+ b) +:+ c = a +:+ (b +:+ c).
Proof.
  induction a as [|x a IH]; [reflexivity|].
  change (String x ((a +:+ b) +:+ c) = String x (a +:+ (b +:+ c))).
  by rewrite IH.
Qed.

Lemma unknown_message_names (verb propName : string) :
  occurs_in propName (unknown_message verb propName).
Proof.
  exists ("Cannot " +:+ verb +:+ " SimVar: " +:+ dquote), (dquote +:+ " unknown.").
  unfold unknown_message. by rewrite !string_app_assoc.
Qed.

(** When the counter stands at an unreserved value up to 900, [nextId]
    returns that value. *)
Lemma nextId_returns_free_counter (s : api) :
  id s ≤ 900 → (id s ∉ reserved s) → fst (nextId s) = id s.
Proof.
  intros Hle Hfree.
  destruct (nextId_least s) as (r & Heq & Hstart & _ & Hbelow).
  rewrite Heq. simpl.
  destruct (Z.gtb_spec (id s) 900); [lia|].
  destruct (decide (r = id s)) as [|Hne]; [done|].
  exfalso. apply Hfree, Hbelow. lia.
Qed.

Section Unknown.

Variable SimVars : string → option simvar.

(** [addDataDefinitions] on names of which [p] is the first unknown one:
    the known names before it are added to the definition, then the
    definition is cleared, the id released and the error thrown. *)
Lemma addDataDefinitions_unknown (DATA_ID : Z) (pre post : list string) (p : string)
    (k : nat) (defs : list (option definition)) (s : api) :
  (∀ i x, (pre ++ p :: post) !! i = Some x →
          defs !! (k + i)%nat = Some (SimVars_lookup SimVars x)) →
  Forall (fun n => is_Some (SimVars n)) pre →
  SimVars_lookup SimVars p = None →
  forEach
    (fun '(pos, propName) =>
       match mjoin (defs !! pos) with
       | None =>
           (modify (emit (clearDataDefinition DATA_ID)) ;;;
            modify (releaseId DATA_ID) ;;;
            throw (Error (unknown_message "get" propName)))%js
       | Some (Def def) => modify (emit (addToDataDefinition DATA_ID propName def))
       | Some Member => modify (emit (addToDataDefinition_undefined DATA_ID propName))
       end)
    (imap (fun i x => ((k + i)%nat, x)) (pre ++ p :: post)) s
  = (Throw (Error (unknown_message "get" p)),
     releaseId DATA_ID
       {| id := id s; reserved := reserved s; eventListeners := eventListeners s;
          heap := heap s;
          trace := trace s
                   ++ omap (fun n => addToDataDefinition DATA_ID n <$> SimVars n) pre
                   ++ [clearDataDefinition DATA_ID] |}).
Proof.
  revert k s. induction pre as [|n pre IH]; intros k s Hdefs Hknown Hp.
  - simpl. unfold bind at 1.
    rewrite (Hdefs 0%nat p eq_refl). simpl. rewrite Hp. reflexivity.
  - apply Forall_cons in Hknown as [[d Hd] Hknown].
    simpl. unfold bind at 1.
    rewrite (Hdefs 0%nat n eq_refl). unfold SimVars_lookup at 1. simpl.
    rewrite Hd. simpl.
    rewrite (imap_ext _ (fun i x => ((S k + i)%nat, x))).
    2:{ intros i x _. simpl. f_equal. lia. }
    rewrite (IH (S k)); [| |done|done].
    + simpl. by rewrite <- !app_assoc.
    + intros i x Hi. replace (S k + i)%nat with (k + S i)%nat by lia.
      by apply Hdefs.
Qed.

(** A name that the table has no entry for and that is no member of
    [Object.prototype] reads as [undefined]. *)
Lemma SimVars_lookup_None (p : string) :
  SimVars p = None → p ∉ Object_prototype → SimVars_lookup SimVars p = None.
Proof.
  intros Hp Hproto. unfold SimVars_lookup. rewrite Hp.
  by rewrite bool_decide_eq_false_2.
Qed.

End Unknown.

(** C9, as stated, fails in two ways, shown on a new object with a table
    without entries.  The message names the key that was looked up, not the
    name that was passed: [set("NO_SUCH_VAR", 1)] throws an [Error] whose
    message has ["NO SUCH VAR"] in it and not ["NO_SUCH_VAR"].  And a name
    that the table has no entry for but that [Object.prototype] has is not
    rejected: [set("toString", 1)] throws a [TypeError] whose message does
    not name the property, and the id 1 that it took stays reserved;
    [get("toString")] throws nothing: it defines the property with
    undefined units and data type and sends the request. *)
Lemma unknown_property_counterexample :
  let SimVars (_ : string) : option simvar := None in
  let numeric (_ : value) : option Z := None in
  let write_error (_ : simvar) (_ : value) : option exn := None in
  let r_name := set SimVars numeric write_error "NO_SUCH_VAR" (Number 1) init in
  let r_set := set SimVars numeric write_error "toString" (Number 1) init in
  let r_get := get SimVars ["toString"] init in
  fst r_name = Throw (Error (unknown_message "set" "NO SUCH VAR"))
  ∧ ¬ occurs_in "NO_SUCH_VAR" (unknown_message "set" "NO SUCH VAR")
  ∧ SimVars "toString" = None
  ∧ fst r_set = Throw (TypeError "def.write is not a function")
  ∧ ¬ occurs_in "toString" "def.write is not a function"
  ∧ reserved init = ∅ ∧ reserved (snd r_set) = {[1]}
  ∧ fst r_get = Return 1
  ∧ trace (snd r_get)
    = [addToDataDefinition_undefined 1 "toString"; on_simObjectData 1;
       requestDataOnSimObject 1 1].
Proof.
  intros SimVars numeric write_error r_name r_set r_get.
  split; [reflexivity|]. split.
  { intros (pre & post & H). vm_compute in H.
    repeat (destruct pre as [|? pre]; simpl in H; [discriminate|injection H as _ H]).
    destruct pre; discriminate. }
  split; [reflexivity|]. split; [reflexivity|]. split.
  { intros (pre & post & H).
    repeat (destruct pre as [|? pre]; simpl in H; [discriminate|injection H as _ H]).
    destruct pre; discriminate. }
  split; [reflexivity|]. split; [by vm_compute|].
  split; reflexivity.
Qed.

(** C9, amended.  Let [p] be [propName] with its underscores replaced by
    spaces (the key that is looked up), and let [SimVars[p]] be undefined:
    the table has no entry for [p] and [p] is not the name of a member of
    [Object.prototype].  Then [set(propName, v)] throws an [Error] whose
    message names [p], and [get(...pre, propName, ...post)], where the names
    of [pre] are known, throws an [Error] whose message names [p] after
    adding the names of [pre] to the data definition and clearing it.  In
    both cases one id [DATA_ID] was taken and it is released when the error
    leaves: the reserved set is what it was before the call, nothing else
    was sent, and [nextId] returns [DATA_ID] again once the counter stands
    at it. *)
Theorem unknown_property_error (SimVars : string → option simvar)
    (numeric : value → option Z) (write_error : simvar → value → option exn)
    (s : api) (propName : string) (v : value) (pre post : list string) :
  let norm := replaceAll "_" " " in
  SimVars (norm propName) = None →
  norm propName ∉ Object_prototype →
  Forall (fun n => is_Some (SimVars (norm n))) pre →
  ∃ DATA_ID s1 s_set s_get,
    nextId s = (DATA_ID, s1)
    ∧ set SimVars numeric write_error propName v s
      = (Throw (Error (unknown_message "set" (norm propName))), s_set)
    ∧ get SimVars (pre ++ propName :: post) s
      = (Throw (Error (unknown_message "get" (norm propName))), s_get)
    ∧ occurs_in (norm propName) (unknown_message "set" (norm propName))
    ∧ occurs_in (norm propName) (unknown_message "get" (norm propName))
    ∧ reserved s_set = reserved s ∧ reserved s_get = reserved s
    ∧ (DATA_ID ∉ reserved s_set) ∧ (DATA_ID ∉ reserved s_get)
    ∧ id s_set = DATA_ID + 1 ∧ id s_get = DATA_ID + 1
    ∧ trace s_set = trace s
    ∧ trace s_get
      = trace s
        ++ omap (fun n => addToDataDefinition DATA_ID n <$> SimVars n) (map norm pre)
        ++ [clearDataDefinition DATA_ID]
    ∧ (DATA_ID ≤ 900 →
       fst (nextId (set_id DATA_ID s_set)) = DATA_ID
       ∧ fst (nextId (set_id DATA_ID s_get)) = DATA_ID).
Proof.
  intros norm Hown Hproto Hpre.
  pose proof (SimVars_lookup_None SimVars _ Hown Hproto) as Hp.
  destruct (nextId_least s) as (r & Heq & _ & Hfree & _).
  assert (({[r]} ∪ reserved s) ∖ {[r]} = reserved s) as Hrel.
  { apply set_eq. intros x.
    rewrite elem_of_difference, elem_of_union, elem_of_singleton.
    split; [tauto|]. intros Hx. split; [tauto|]. by intros ->. }
  exists r. eexists. eexists. eexists.
  split; [exact Heq|].
  split; [unfold set; fold norm; rewrite Heq, Hp; reflexivity|].
  split.
  { unfold get. rewrite Heq. unfold bind, addDataDefinitions.
    fold norm. rewrite map_app. simpl map.
    match goal with
    | |- context [forEach _ _ ?s1] =>
        pose proof (addDataDefinitions_unknown SimVars r (map norm pre)
                      (map norm post) (norm propName) 0
                      (map (SimVars_lookup SimVars)
                         (map norm pre ++ norm propName :: map norm post))
                      s1) as Hadd
    end.
    change (imap (fun i x => ((0 + i)%nat, x)) ?l) with (imap pair l) in Hadd.
    rewrite Hadd.
    - reflexivity.
    - intros i x Hi. simpl. rewrite list_lookup_fmap, Hi. reflexivity.
    - by apply Forall_map.
    - exact Hp. }
  split; [apply unknown_message_names|].
  split; [apply unknown_message_names|].
  simpl. rewrite Hrel.
  repeat (split; [done|]).
  intros Hle.
  split; apply nextId_returns_free_counter; simpl; rewrite ?Hrel; done.
Qed.

(** C9 on a new object whose table knows only ["PLANE LATITUDE"].  The id
    taken by the failed [set] is 1; it is free afterwards, and the allocator
    hands it out again when the counter comes round: of 901 further
    [nextId()] calls the last returns 1. *)
Lemma unknown_property_error_witness :
  let SimVars n :=
    if String.eqb n "PLANE LATITUDE"
    then Some {| units := "radians"; data_type := 4 |} else None in
  ∃ s_set s_get,
    set SimVars (fun _ => None) (fun _ _ => None) "NO_SUCH_VAR" (Number 1) init
    = (Throw (Error (unknown_message "set" "NO SUCH VAR")), s_set)
    ∧ get SimVars ["PLANE_LATITUDE"; "NO_SUCH_VAR"] init
      = (Throw (Error (unknown_message "get" "NO SUCH VAR")), s_get)
    ∧ reserved s_set = ∅ ∧ reserved s_get = ∅
    ∧ map returned (fst (run (replicate 901 NextId) s_set)) !! 900%nat = Some 1.
Proof.
  intros SimVars.
  destruct (unknown_property_error SimVars (fun _ => None) (fun _ _ => None) init
              "NO_SUCH_VAR" (Number 1) ["PLANE_LATITUDE"] [])
    as (i & s1 & s_set & s_get & _ & Hset & Hget & _ & _ & Hr1 & Hr2 & _).
  - reflexivity.
  - intros H. repeat (apply elem_of_cons in H as [H|H]; [discriminate|]).
    by apply elem_of_nil in H.
  - repeat constructor. simpl. eauto.
  - exists s_set, s_get.
    split; [exact Hset|]. split; [exact Hget|].
    split; [exact Hr1|]. split; [exact Hr2|].
    assert (snd (set SimVars (fun _ => None) (fun _ _ => None) "NO_SUCH_VAR"
                   (Number 1) init) = s_set)
      as <- by (rewrite Hset; reflexivity).
    vm_compute. reflexivity.
Defined.

(** ** Queries on the airport database *)

Lemma find_first {A} (f : A → bool) (l1 l2 : list A) (a : A) :
  Forall (fun b => f b = false) l1 → f a = true →
  List.find f (l1 ++ a :: l2) = Some a.
Proof.
  intros Hl1 Ha. induction Hl1 as [|b l1 Hb _ IH]; simpl.
  - by rewrite Ha.
  - by rewrite Hb.
Qed.

Lemma find_none {A} (f : A → bool) (l : list A) :
  Forall (fun b => f b = false) l → List.find f l = None.
Proof. induction 1 as [|b l Hb _ IH]; simpl; [done|]. by rewrite Hb. Qed.

Lemma getVarArg_AIRPORT (code : string) :
  AirportHandler.getVarArg ("AIRPORT:" +:+ code) = Some code.
Proof. reflexivity. Qed.

(** A name that starts with ["AIRPORT:"] is neither ["ALL AIRPORTS"] nor a
    ["NEARBY AIRPORTS"] name: [get] hands it to [getAirport]. *)
Lemma get_AIRPORT
    (dist : AirportHandler.number → AirportHandler.number →
            AirportHandler.number → AirportHandler.number → AirportHandler.number)
    (ToNumber : string → AirportHandler.number)
    (airports : list AirportHandler.Airport)
    (lat long : AirportHandler.number) (code : string) :
  AirportHandler.get dist ToNumber airports lat long ("AIRPORT:" +:+ code)
  = AirportHandler.object (replaceAll " " "_" ("AIRPORT:" +:+ code))
      (AirportHandler.getAirport airports ("AIRPORT:" +:+ code)).
Proof. reflexivity. Qed.

(** What [get("AIRPORT:" + code)] returns: the first airport of the database
    whose [icao] is [code] (string equality, so case matters), or
    [undefined] when there is none, inside the object that [getAirport]
    builds, inside the object that [get] builds. *)
Lemma airport_by_icao
    (dist : AirportHandler.number → AirportHandler.number →
            AirportHandler.number → AirportHandler.number → AirportHandler.number)
    (ToNumber : string → AirportHandler.number)
    (airports : list AirportHandler.Airport)
    (lat long : AirportHandler.number) (code : string) :
  let varName := "AIRPORT:" +:+ code in
  let answer v :=
    AirportHandler.object (replaceAll " " "_" varName)
      (AirportHandler.object varName v) in
  (∀ l1 a l2,
     airports = l1 ++ a :: l2 →
     Forall (fun b => AirportHandler.icao b ≠ code) l1 →
     AirportHandler.icao a = code →
     AirportHandler.get dist ToNumber airports lat long varName
     = answer (AirportHandler.an_airport a))
  ∧ (Forall (fun b => AirportHandler.icao b ≠ code) airports →
     AirportHandler.get dist ToNumber airports lat long varName
     = answer AirportHandler.undefined).
Proof.
  intros varName answer.
  assert (∀ l, Forall (fun b => AirportHandler.icao b ≠ code) l →
               Forall (fun b => String.eqb (AirportHandler.icao b) code = false) l)
    as Hneq.
  { intros l Hl. eapply Forall_impl; [exact Hl|].
    intros b Hb. by apply String.eqb_neq. }
  split.
  - intros l1 a l2 -> Hl1 Ha. unfold varName, answer.
    rewrite get_AIRPORT. unfold AirportHandler.getAirport.
    rewrite getVarArg_AIRPORT.
    rewrite (find_first _ l1 l2 a); [done|by apply Hneq|by apply String.eqb_eq].
  - intros Hall. unfold varName, answer.
    rewrite get_AIRPORT. unfold AirportHandler.getAirport.
    rewrite getVarArg_AIRPORT.
    rewrite find_none; [done|by apply Hneq].
Qed.

(** C7 fails on the code.  On a database with two records for ["KSEA"],
    [get("AIRPORT:KSEA")] finds the first of them, but what it returns under
    the key is not that airport: it is the object [{ "AIRPORT:KSEA": airport }]
    that [getAirport] returned, put once more under the same key by [get].
    For a code that the database does not have (or has in another case) the
    value under the key is the object [{ [varName]: undefined }], not
    [undefined]. *)
Theorem airport_query_nested :
  let mk c n := {| AirportHandler.icao := c;
                   AirportHandler.latitude := 47.449%float;
                   AirportHandler.longitude := (-122.309)%float;
                   AirportHandler.altitude := 433%float;
                   AirportHandler.declination := 15.5%float;
                   AirportHandler.name := n;
                   AirportHandler.name64 := n;
                   AirportHandler.region := "K1";
                   AirportHandler.runwayCount := 0;
                   AirportHandler.runways := [] |} in
  let db := [mk "EHAM" "Schiphol"; mk "KSEA" "Seattle-Tacoma"; mk "KSEA" "copy"] in
  let get := AirportHandler.get (fun _ _ _ _ => nan) (fun _ => nan) db nan nan in
  let KSEA := AirportHandler.an_airport (mk "KSEA" "Seattle-Tacoma") in
  get "AIRPORT:KSEA"
  = AirportHandler.object "AIRPORT:KSEA" (AirportHandler.object "AIRPORT:KSEA" KSEA)
  ∧ get "AIRPORT:KSEA" ≠ AirportHandler.object "AIRPORT:KSEA" KSEA
  ∧ AirportHandler.getAirport db "AIRPORT:KSEA" ≠ KSEA
  ∧ get "AIRPORT:ksea"
    = AirportHandler.object "AIRPORT:ksea"
        (AirportHandler.object "AIRPORT:ksea" AirportHandler.undefined)
  ∧ get "AIRPORT:KBFI"
    = AirportHandler.object "AIRPORT:KBFI"
        (AirportHandler.object "AIRPORT:KBFI" AirportHandler.undefined)
  ∧ get "AIRPORT:KBFI" ≠ AirportHandler.object "AIRPORT:KBFI" AirportHandler.undefined
  ∧ AirportHandler.getAirport db "AIRPORT:KBFI" ≠ AirportHandler.undefined.
Proof.
  intros mk db get KSEA.
  assert (get "AIRPORT:KSEA"
          = AirportHandler.object "AIRPORT:KSEA"
              (AirportHandler.object "AIRPORT:KSEA" KSEA)) as HKSEA.
  { apply (proj1 (airport_by_icao (fun _ _ _ _ => nan) (fun _ => nan) db nan nan
                    "KSEA") [mk "EHAM" "Schiphol"] (mk "KSEA" "Seattle-Tacoma")
                 [mk "KSEA" "copy"]).
    - reflexivity.
    - repeat constructor. simpl. discriminate.
    - reflexivity. }
  assert (get "AIRPORT:KBFI"
          = AirportHandler.object "AIRPORT:KBFI"
              (AirportHandler.object "AIRPORT:KBFI" AirportHandler.undefined)) as HKBFI.
  { apply (proj2 (airport_by_icao (fun _ _ _ _ => nan) (fun _ => nan) db nan nan
                    "KBFI")).
    repeat constructor; simpl; discriminate. }
  split; [exact HKSEA|].
  split; [rewrite HKSEA; discriminate|].
  split; [discriminate|].
  split.
  { apply (proj2 (airport_by_icao (fun _ _ _ _ => nan) (fun _ => nan) db nan nan
                    "ksea")).
    repeat constructor; simpl; discriminate. }
  split; [exact HKBFI|].
  split; [rewrite HKBFI; discriminate|discriminate].
Qed.

(** ** Loading the persisted database *)

Section InitFacts.

Variable bytes : Type.
Variable gunzip : bytes → outcome bytes.
Variable JSON_parse : bytes → outcome (list AirportHandler.Airport).
Variable JSON_stringify : list AirportHandler.Airport → bytes.
Variable gzip : bytes → bytes.
Variable writeFileSync_error : bytes → option exn.
Variable details : AirportHandler.facility → AirportHandler.Airport.

(** The progress lines of [processAirports] for [k] remaining entries. *)
Lemma processAirports_spec (N : nat) (l : list AirportHandler.facility)
    (done : list AirportHandler.Airport) (s : AirportHandler.state bytes) :
  AirportHandler.this_airports bytes s = Some done →
  AirportHandler.processAirports bytes details N l s
  = (Return tt,
     {| AirportHandler.this_airports := Some (done ++ map details l);
        AirportHandler.console :=
          AirportHandler.console bytes s
          ++ map (fun k => AirportHandler.Progress k N)
               (rev (seq 1 (Datatypes.length l)));
        AirportHandler.closed := AirportHandler.closed bytes s;
        AirportHandler.finished := AirportHandler.finished bytes s;
        AirportHandler.db := AirportHandler.db bytes s |}).
Proof.
  revert done s. induction l as [|entry rest IH]; intros done s Hs.
  - simpl. rewrite !app_nil_r. destruct s; simpl in *; by subst.
  - cbn [AirportHandler.processAirports].
    unfold bind at 1. unfold AirportHandler.print at 1, modify at 1.
    unfold bind at 1. unfold gets at 1. cbn [AirportHandler.this_airports].
    rewrite Hs. unfold bind at 1.
    unfold AirportHandler.set_airports at 1, modify at 1.
    rewrite (IH (done ++ [details entry])); [|reflexivity].
    cbn [AirportHandler.this_airports AirportHandler.console AirportHandler.closed
         AirportHandler.finished AirportHandler.db default].
    f_equal. f_equal.
    + by rewrite <- app_assoc.
    + rewrite <- app_assoc. f_equal.
      change (Datatypes.length (entry :: rest)) with (S (Datatypes.length rest)).
      rewrite seq_S, rev_app_distr. reflexivity.
Qed.

(** The rebuild: every entry of the list is fetched in order, the handle is
    closed, the database is written and [finished()] is called; only the
    write can throw. *)
Lemma build_spec (l : list AirportHandler.facility) (s : AirportHandler.state bytes) :
  let airports := map details l in
  let zipped := gzip (JSON_stringify airports) in
  let lines :=
    AirportHandler.console bytes s
    ++ [AirportHandler.Line AirportHandler.log
          "No airport database found: building a new one." None]
    ++ map (fun k => AirportHandler.Progress k (Datatypes.length l))
         (rev (seq 1 (Datatypes.length l))) in
  AirportHandler.build bytes JSON_stringify gzip writeFileSync_error details l s
  = match writeFileSync_error zipped with
    | None =>
        (Return tt,
         {| AirportHandler.this_airports := Some airports;
            AirportHandler.console := lines;
            AirportHandler.closed := true;
            AirportHandler.finished := S (AirportHandler.finished bytes s);
            AirportHandler.db := AirportHandler.Stored bytes zipped |})
    | Some e =>
        (Throw e,
         {| AirportHandler.this_airports := Some airports;
            AirportHandler.console := lines;
            AirportHandler.closed := true;
            AirportHandler.finished := AirportHandler.finished bytes s;
            AirportHandler.db := AirportHandler.db bytes s |})
    end.
Proof.
  intros airports zipped lines. unfold AirportHandler.build.
  unfold bind at 1. unfold AirportHandler.print at 1, modify at 1.
  unfold bind at 1. unfold AirportHandler.set_airports at 1, modify at 1.
  unfold bind at 1.
  rewrite (processAirports_spec _ l []); [|reflexivity].
  unfold bind, AirportHandler.close, modify, gets, AirportHandler.writeFileSync,
    AirportHandler.call_finished.
  cbn [AirportHandler.this_airports AirportHandler.console AirportHandler.closed
       AirportHandler.finished AirportHandler.db default app].
  subst airports zipped lines.
  change (Datatypes.id (map details l)) with (map details l).
  destruct (writeFileSync_error _); unfold modify; simpl;
    by rewrite <- app_assoc.
Qed.

(** C8. [init], once the facility list [l] is complete, for every content
    of the database location.  When the file is missing the rebuild runs.
    When reading it, decompressing it or parsing it throws, each failure is
    printed and the same rebuild runs, from a state that differs only by
    the printed lines.  When the file decodes to [airports], these become
    [this.airports] whatever their number; a different number than
    [length l] only prints two warnings.  No exception of the cache block
    leaves [init]: if [init] throws, it is the exception of the final
    [writeFileSync] of the rebuild. *)
Theorem init_cache (l : list AirportHandler.facility) (f : AirportHandler.file bytes) :
  let init :=
    AirportHandler.init bytes gunzip JSON_parse JSON_stringify gzip
      writeFileSync_error details l (AirportHandler.start bytes f) in
  let rebuild lines :=
    AirportHandler.build bytes JSON_stringify gzip writeFileSync_error details l
      {| AirportHandler.this_airports := None;
         AirportHandler.console := lines;
         AirportHandler.closed := false;
         AirportHandler.finished := O;
         AirportHandler.db := f |} in
  let undefined_buffer :=
    TypeError "The buffer argument must be of type string or an instance of Buffer" in
  let undefined_json := SyntaxError "Unexpected token u in JSON at position 0" in
  init
  = match f with
    | AirportHandler.Missing _ => rebuild []
    | AirportHandler.Unreadable _ e =>
        rebuild
          [AirportHandler.Line AirportHandler.error "file read error:" (Some e);
           AirportHandler.Line AirportHandler.error "zlib error:" (Some undefined_buffer);
           AirportHandler.Line AirportHandler.log "JSON parse error:" (Some undefined_json)]
    | AirportHandler.Stored _ zipped =>
        match gunzip zipped with
        | Throw e =>
            rebuild
              [AirportHandler.Line AirportHandler.error "zlib error:" (Some e);
               AirportHandler.Line AirportHandler.log "JSON parse error:"
                 (Some undefined_json)]
        | Return json =>
            match JSON_parse json with
            | Throw e =>
                rebuild
                  [AirportHandler.Line AirportHandler.log "JSON parse error:" (Some e)]
            | Return airports =>
                (Return tt,
                 {| AirportHandler.this_airports := Some airports;
                    AirportHandler.console :=
                      if bool_decide (Datatypes.length airports = Datatypes.length l)
                      then []
                      else
                        [AirportHandler.Line AirportHandler.warn
                           ("MSFS has " +:+ pretty (Datatypes.length l)
                            +:+ " airports, db has "
                            +:+ pretty (Datatypes.length airports) +:+ " airports.")
                           None;
                         AirportHandler.Line AirportHandler.warn
                           "You may need to update your version of msfs-simconnet-api-wrapper..."
                           None];
                    AirportHandler.closed := true;
                    AirportHandler.finished := 1%nat;
                    AirportHandler.db := f |})
            end
        end
    end
  ∧ ∀ e, fst init = Throw e →
         writeFileSync_error (gzip (JSON_stringify (map details l))) = Some e.
Proof.
  intros init rebuild undefined_buffer undefined_json.
  assert (∀ lines e, fst (rebuild lines) = Throw e →
            writeFileSync_error (gzip (JSON_stringify (map details l))) = Some e)
    as Hbuild.
  { intros lines e. unfold rebuild. rewrite build_spec.
    destruct (writeFileSync_error _); simpl; congruence. }
  assert (init
  = match f with
    | AirportHandler.Missing _ => rebuild []
    | AirportHandler.Unreadable _ e =>
        rebuild
          [AirportHandler.Line AirportHandler.error "file read error:" (Some e);
           AirportHandler.Line AirportHandler.error "zlib error:" (Some undefined_buffer);
           AirportHandler.Line AirportHandler.log "JSON parse error:" (Some undefined_json)]
    | AirportHandler.Stored _ zipped =>
        match gunzip zipped with
        | Throw e =>
            rebuild
              [AirportHandler.Line AirportHandler.error "zlib error:" (Some e);
               AirportHandler.Line AirportHandler.log "JSON parse error:"
                 (Some undefined_json)]
        | Return json =>
            match JSON_parse json with
            | Throw e =>
                rebuild
                  [AirportHandler.Line AirportHandler.log "JSON parse error:" (Some e)]
            | Return airports =>
                (Return tt,
                 {| AirportHandler.this_airports := Some airports;
                    AirportHandler.console :=
                      if bool_decide (Datatypes.length airports = Datatypes.length l)
                      then []
                      else
                        [AirportHandler.Line AirportHandler.warn
                           ("MSFS has " +:+ pretty (Datatypes.length l)
                            +:+ " airports, db has "
                            +:+ pretty (Datatypes.length airports) +:+ " airports.")
                           None;
                         AirportHandler.Line AirportHandler.warn
                           "You may need to update your version of msfs-simconnet-api-wrapper..."
                           None];
                    AirportHandler.closed := true;
                    AirportHandler.finished := 1%nat;
                    AirportHandler.db := f |})
            end
        end
    end) as Heq.
  { unfold init, AirportHandler.init, AirportHandler.load, AirportHandler.start.
    destruct f as [|e|zipped]; [reflexivity|reflexivity|].
    unfold AirportHandler.existsSync, AirportHandler.readFileSync,
      AirportHandler.gunzipSync, AirportHandler.parse, AirportHandler.set_airports,
      AirportHandler.close, AirportHandler.print, AirportHandler.call_finished.
    unfold bind, try_catch, gets, ret, throw, modify.
    cbn [AirportHandler.db].
    destruct (gunzip zipped) as [json|e]; [|reflexivity].
    destruct (JSON_parse json) as [airports|e]; [|reflexivity].
    case_bool_decide; reflexivity. }
  split; [exact Heq|].
  intros e. rewrite Heq.
  destruct f as [|e'|zipped]; [apply Hbuild|apply Hbuild|].
  destruct (gunzip zipped) as [json|e']; [|apply Hbuild].
  destruct (JSON_parse json) as [airports|e']; [|apply Hbuild].
  simpl. discriminate.
Qed.

End InitFacts.

(** ** Doubles

    The comparisons of doubles, the sign of a difference and the result of
    a division, from the specification of the binary64 operations. *)

Lemma digits2_pos_size (m : positive) : digits2_pos m = Pos.size m.
Proof. induction m; simpl; congruence. Qed.

Lemma digits2_pos_bounds (m : positive) :
  2 ^ (Zpos (digits2_pos m) - 1) ≤ Zpos m < 2 ^ Zpos (digits2_pos m).
Proof.
  rewrite digits2_pos_size. split.
  - pose proof (Pos.size_le m) as H.
    assert (Zpos (2 ^ Pos.size m) ≤ Zpos m~0) as H' by exact H.
    rewrite Pos2Z.inj_pow in H'.
    replace (Zpos (Pos.size m)) with (Zpos (Pos.size m) - 1 + 1) in H' by lia.
    rewrite Z.pow_add_r in H' by lia. lia.
  - pose proof (Pos.size_gt m) as H.
    assert (Zpos m < Zpos (2 ^ Pos.size m)) as H' by exact H.
    by rewrite Pos2Z.inj_pow in H'.
Qed.

(** A finite double has an exponent from -1074 to 971 and a mantissa of at
    most 53 bits, of exactly 53 bits unless the exponent is -1074. *)
Lemma bounded_inv (m : positive) (e : Z) :
  bounded prec emax m e = true →
  -1074 ≤ e ≤ 971
  ∧ Zpos (digits2_pos m) ≤ 53
  ∧ (e = -1074 ∨ Zpos (digits2_pos m) = 53).
Proof.
  unfold bounded, canonical_mantissa, fexp, emin, prec, emax.
  intros H. apply andb_prop in H as [H1 H2].
  apply Z.eqb_eq in H1. apply Z.leb_le in H2. lia.
Qed.

Lemma scaled_finite_bounds (m : positive) (e : Z) :
  bounded prec emax m e = true →
  0 < Zpos m * 2 ^ (e + 1074) < 2 ^ 2098.
Proof.
  intros H. apply bounded_inv in H as (He & Hd & _).
  pose proof (digits2_pos_bounds m) as [_ Hm].
  assert (0 < 2 ^ (e + 1074)) by (apply Z.pow_pos_nonneg; lia).
  split; [lia|].
  assert (2 ^ Zpos (digits2_pos m) ≤ 2 ^ 53) by (apply Z.pow_le_mono_r; lia).
  assert (2 ^ (e + 1074) ≤ 2 ^ 2045) by (apply Z.pow_le_mono_r; lia).
  replace (2 ^ 2098) with (2 ^ 53 * 2 ^ 2045) by (rewrite <- Z.pow_add_r by lia; done).
  assert (0 < 2 ^ 2045) by (apply Z.pow_pos_nonneg; lia).
  apply Z.le_lt_trans with (Zpos m * 2 ^ 2045).
  - apply Z.mul_le_mono_nonneg_l; lia.
  - apply Z.mul_lt_mono_pos_r; lia.
Qed.

(** Comparing exponents first and mantissas next compares the values. *)
Lemma finite_compare (m1 m2 : positive) (e1 e2 : Z) :
  bounded prec emax m1 e1 = true →
  bounded prec emax m2 e2 = true →
  match e1 ?= e2 with
  | Lt => Lt
  | Gt => Gt
  | Eq => Pos.compare_cont Eq m1 m2
  end
  = (Zpos m1 * 2 ^ (e1 + 1074) ?= Zpos m2 * 2 ^ (e2 + 1074)).
Proof.
  assert (∀ m1 m2 e1 e2,
            bounded prec emax m1 e1 = true → bounded prec emax m2 e2 = true →
            e1 < e2 → Zpos m1 * 2 ^ (e1 + 1074) < Zpos m2 * 2 ^ (e2 + 1074)) as Hlt.
  { clear. intros m1 m2 e1 e2 H1 H2 He.
    apply bounded_inv in H1 as (He1 & Hd1 & _).
    apply bounded_inv in H2 as (He2 & Hd2 & [?|Hn]); [lia|].
    pose proof (digits2_pos_bounds m1) as [_ Hm1].
    pose proof (digits2_pos_bounds m2) as [Hm2 _]. rewrite Hn in Hm2.
    assert (2 ^ Zpos (digits2_pos m1) ≤ 2 ^ 53) by (apply Z.pow_le_mono_r; lia).
    assert (0 < 2 ^ (e1 + 1074)) by (apply Z.pow_pos_nonneg; lia).
    assert (2 * 2 ^ (e1 + 1074) ≤ 2 ^ (e2 + 1074)).
    { replace (2 * 2 ^ (e1 + 1074)) with (2 ^ (e1 + 1074 + 1))
        by (rewrite Z.pow_add_r by lia; lia).
      apply Z.pow_le_mono_r; lia. }
    change (2 ^ (53 - 1)) with 4503599627370496 in Hm2.
    change (2 ^ 53) with 9007199254740992 in *. nia. }
  intros H1 H2. destruct (Z.compare_spec e1 e2) as [->|He|He].
  - change (Pos.compare_cont Eq m1 m2) with (Zpos m1 ?= Zpos m2).
    apply bounded_inv in H2 as (He2 & _).
    assert (0 < 2 ^ (e2 + 1074)) by (apply Z.pow_pos_nonneg; lia).
    destruct (Z.compare_spec (Zpos m1) (Zpos m2)); symmetry;
      [apply Z.compare_eq_iff|apply Z.compare_lt_iff|apply Z.compare_gt_iff]; nia.
  - symmetry. apply Z.compare_lt_iff. by apply Hlt.
  - symmetry. apply Z.compare_gt_iff. by apply Hlt.
Qed.

(** Doubles that are not [NaN] compare as their integers do. *)
Lemma SFcompare_scaled (x y : spec_float) :
  valid_binary x = true → valid_binary y = true →
  Double.is_number x = true → Double.is_number y = true →
  SFcompare x y = Some (Double.scaled x ?= Double.scaled y).
Proof.
  intros Hx Hy Nx Ny.
  destruct x as [sx|sx| |sx mx ex], y as [sy|sy| |sy my ey];
    try discriminate; simpl in Hx, Hy; simpl SFcompare; unfold Double.scaled.
  - done.
  - by destruct sy.
  - pose proof (scaled_finite_bounds _ _ Hy).
    destruct sy; cbn [cond_Zopp]; f_equal; symmetry;
      [apply Z.compare_gt_iff|apply Z.compare_lt_iff]; lia.
  - by destruct sx.
  - by destruct sx, sy.
  - pose proof (scaled_finite_bounds _ _ Hy).
    destruct sx, sy; cbn [cond_Zopp]; f_equal; symmetry;
      first [apply Z.compare_gt_iff; lia|apply Z.compare_lt_iff; lia].
  - pose proof (scaled_finite_bounds _ _ Hx).
    destruct sx; cbn [cond_Zopp]; f_equal; symmetry;
      [apply Z.compare_lt_iff|apply Z.compare_gt_iff]; lia.
  - pose proof (scaled_finite_bounds _ _ Hx).
    destruct sx, sy; cbn [cond_Zopp]; f_equal; symmetry;
      first [apply Z.compare_gt_iff; lia|apply Z.compare_lt_iff; lia].
  - pose proof (scaled_finite_bounds _ _ Hx).
    pose proof (scaled_finite_bounds _ _ Hy).
    destruct sx, sy; cbn [cond_Zopp]; f_equal.
    + transitivity (CompOpp match ex ?= ey with
                            | Eq => Pos.compare_cont Eq mx my
                            | Lt => Lt
                            | Gt => Gt
                            end); [by destruct (ex ?= ey)|].
      rewrite (finite_compare _ _ _ _ Hx Hy), Z.compare_opp.
      destruct (Z.compare_spec (Zpos mx * 2 ^ (ex + 1074)) (Zpos my * 2 ^ (ey + 1074)));
        cbn [CompOpp]; symmetry;
        [apply Z.compare_eq_iff|apply Z.compare_gt_iff|apply Z.compare_lt_iff]; lia.
    + symmetry. apply Z.compare_lt_iff. lia.
    + symmetry. apply Z.compare_gt_iff. lia.
    + apply (finite_compare _ _ _ _ Hx Hy).
Qed.

(** *** Rounding keeps the sign *)

Lemma iter_pos_nat {A} (f : A → A) (p : positive) (x : A) :
  SpecFloat.iter_pos f p x = Nat.iter (Pos.to_nat p) f x.
Proof.
  revert x. induction p as [p IH|p IH|]; intros x; simpl SpecFloat.iter_pos.
  - rewrite !IH, <- Nat.iter_succ_r, <- Nat.iter_add. f_equal. lia.
  - rewrite !IH, <- Nat.iter_add. f_equal. lia.
  - done.
Qed.



Lemma shr_record_of_loc_m (m : Z) (l : location) :
  shr_m (shr_record_of_loc m l) = m.
Proof. by destruct l as [|[]]. Qed.








(** *** A quotient by a finite divisor is not [NaN] *)

Lemma shr_1_nonneg (mrs : shr_record) : 0 ≤ shr_m mrs → 0 ≤ shr_m (shr_1 mrs).
Proof. destruct mrs as [[|[p|p|]|p] r s]; simpl; lia. Qed.

Lemma shr_fexp_nonneg (m e : Z) (l : location) :
  0 ≤ m → 0 ≤ shr_m (fst (shr_fexp prec emax m e l)).
Proof.
  intros Hm. unfold shr_fexp, shr.
  destruct (_ - e) as [|p|p]; cbn [fst]; rewrite ?shr_record_of_loc_m; try done.
  rewrite iter_pos_nat.
  induction (Pos.to_nat p) as [|n IH]; simpl.
  - by rewrite shr_record_of_loc_m.
  - by apply shr_1_nonneg.
Qed.

Lemma binary_round_aux_number (s : bool) (m e : Z) (l : location) :
  0 ≤ m → Double.is_number (binary_round_aux prec emax s m e l) = true.
Proof.
  intros Hm. unfold binary_round_aux.
  pose proof (shr_fexp_nonneg m e l Hm) as H1.
  destruct (shr_fexp prec emax m e l) as [mrs1 e1]. cbn [fst] in H1.
  assert (0 ≤ round_nearest_even (shr_m mrs1) (loc_of_shr_record mrs1)) as H2.
  { destruct (loc_of_shr_record mrs1) as [|[]]; simpl; try lia.
    destruct (Z.even _); lia. }
  pose proof (shr_fexp_nonneg _ e1 loc_Exact H2) as H3.
  destruct (shr_fexp prec emax _ e1 loc_Exact) as [mrs3 e3]. cbn [fst] in H3.
  destruct (shr_m mrs3); [done| |lia].
  by destruct (e3 <=? emax - prec).
Qed.

Lemma SFdiv_number (x : spec_float) (s : bool) (m : positive) (e : Z) :
  Double.is_number x = true →
  Double.is_number (SF64div x (S754_finite s m e)) = true.
Proof.
  destruct x as [sx|sx| |sx mx ex]; try done. intros _.
  unfold SF64div, SFdiv, SFdiv_core_binary.
  match goal with |- context [Z.div_eucl ?a ?b] =>
    pose proof (Z.div_pos a b) as Hq; unfold Z.div in Hq;
    destruct (Z.div_eucl a b) as [q r] end.
  apply binary_round_aux_number. apply Hq; [|lia].
  destruct (_ - _ - _) as [|p|p]; try lia. apply Z.shiftl_nonneg. lia.
Qed.

(** *** The operations of JavaScript on doubles *)

Lemma compare_rank (x y : float) :
  Double.not_nan x = true → Double.not_nan y = true →
  SFcompare (Prim2SF x) (Prim2SF y) = Some (Double.rank x ?= Double.rank y).
Proof. intros. apply SFcompare_scaled; auto using Prim2SF_valid. Qed.

Lemma compare_nan (x y : float) :
  Double.not_nan x && Double.not_nan y = false →
  SFcompare (Prim2SF x) (Prim2SF y) = None.
Proof.
  unfold Double.not_nan. destruct (Prim2SF x), (Prim2SF y); done.
Qed.

Lemma leb_rank (x y : float) :
  (x <=? y)%float
  = Double.not_nan x && Double.not_nan y && (Double.rank x <=? Double.rank y).
Proof.
  rewrite leb_spec. unfold SFleb.
  destruct (Double.not_nan x && Double.not_nan y) eqn:Hn.
  - apply andb_prop in Hn as [Hx Hy]. rewrite compare_rank by done.
    unfold Z.leb. by destruct (_ ?= _).
  - by rewrite compare_nan.
Qed.


Lemma eqb_rank (x y : float) :
  (x =? y)%float
  = Double.not_nan x && Double.not_nan y && (Double.rank x =? Double.rank y).
Proof.
  rewrite FloatAxioms.eqb_spec. unfold SFeqb.
  destruct (Double.not_nan x && Double.not_nan y) eqn:Hn.
  - apply andb_prop in Hn as [Hx Hy]. rewrite compare_rank by done.
    rewrite Z.eqb_compare. by destruct (_ ?= _).
  - by rewrite compare_nan.
Qed.

Lemma leb_true (x y : float) :
  (x <=? y)%float = true
  ↔ Double.not_nan x = true ∧ Double.not_nan y = true
    ∧ Double.rank x ≤ Double.rank y.
Proof. rewrite leb_rank, !andb_true_iff, Z.leb_le. tauto. Qed.



Lemma is_nan_not_nan (x : float) : is_nan x = negb (Double.not_nan x).
Proof.
  unfold is_nan. rewrite eqb_rank, Z.eqb_refl.
  by destruct (Double.not_nan x).
Qed.


(** A double that is not [NaN], divided by 1.852, is not [NaN]. *)
Lemma div_KM_PER_NM_not_nan (x : AirportHandler.number) :
  Double.not_nan x = true →
  Double.not_nan (AirportHandler.div x AirportHandler.KM_PER_NM) = true.
Proof.
  intros Hx. unfold Double.not_nan, AirportHandler.div. rewrite div_spec.
  change (Prim2SF AirportHandler.KM_PER_NM)
    with (S754_finite false 8340666509890159 (-52)).
  by apply SFdiv_number.
Qed.

(** ** Nearby airports *)

Lemma insert_Permutation {A} (compare : A → A → AirportHandler.number) (x : A)
    (l : list A) :
  Permutation (AirportHandler.insert compare x l) (x :: l).
Proof.
  induction l as [|y l IH]; simpl; [done|].
  destruct (AirportHandler.positive (compare x y)); [|done].
  rewrite IH. apply perm_swap.
Qed.

Lemma sort_Permutation {A} (compare : A → A → AirportHandler.number) (l : list A) :
  Permutation (AirportHandler.sort compare l) l.
Proof.
  induction l as [|x l IH]; simpl; [done|].
  fold (AirportHandler.sort compare l).
  rewrite insert_Permutation. by constructor.
Qed.








(** C6 on three airports at 20, 10 and 5 nautical miles (in this order in
    the database) and a radius of 15, of 200 and of a text that is no number;
    [dist] counts one degree of latitude as one nautical mile. *)
Lemma nearby_airports_example :
  let mk c deg := {| AirportHandler.icao := c;
                     AirportHandler.latitude := deg;
                     AirportHandler.longitude := 0%float;
                     AirportHandler.altitude := 0%float;
                     AirportHandler.declination := 0%float;
                     AirportHandler.name := c;
                     AirportHandler.name64 := c;
                     AirportHandler.region := "XX";
                     AirportHandler.runwayCount := 0;
                     AirportHandler.runways := [] |} in
  let db := [mk "NM20" 20%float; mk "NM10" 10%float; mk "NM05" 5%float] in
  let dist lat long alat along :=
    AirportHandler.mul (AirportHandler.degrees (AirportHandler.sub alat lat))
      AirportHandler.KM_PER_NM in
  let ToNumber text := if String.eqb text "15" then 15%float else AirportHandler.NaN in
  let nearby v :=
    AirportHandler.getAllNearbyAirports dist ToNumber db 0%float 0%float v in
  map (fun x => AirportHandler.icao (AirportHandler.airport x))
    (nearby "NEARBY AIRPORTS:15") = ["NM05"; "NM10"]
  ∧ map AirportHandler.distance (nearby "NEARBY AIRPORTS:15") = [5%float; 10%float]
  ∧ map (fun x => AirportHandler.icao (AirportHandler.airport x))
      (nearby "NEARBY AIRPORTS") = ["NM05"; "NM10"; "NM20"]
  ∧ nearby "NEARBY AIRPORTS:abc" = [].
Proof.
  intros mk db dist ToNumber nearby.
  repeat split; vm_compute; reflexivity.
Qed.

(** C8 on examples.  The stored file is not gzip data: the failure is
    printed, the two listed airports are fetched and written, and [init]
    returns.  The stored file decodes to one airport while the simulator
    lists two: the decoded airport is served and two warnings are printed. *)
Lemma init_cache_witness :
  let mk c := {| AirportHandler.icao := c;
                 AirportHandler.latitude := 0%float;
                 AirportHandler.longitude := 0%float;
                 AirportHandler.altitude := 0%float;
                 AirportHandler.declination := 0%float;
                 AirportHandler.name := c;
                 AirportHandler.name64 := c;
                 AirportHandler.region := "XX";
                 AirportHandler.runwayCount := 0;
                 AirportHandler.runways := [] |} in
  let entry c := {| AirportHandler.facility_icao := c;
                    AirportHandler.facility_latitude := 0%float;
                    AirportHandler.facility_longitude := 0%float;
                    AirportHandler.facility_altitude := 0%float |} in
  let gunzip (b : string) :=
    if String.eqb b "gz:[EHAM]" then Return "[EHAM]"
    else Throw (Error "incorrect header check") in
  let JSON_parse (b : string) :=
    if String.eqb b "[EHAM]" then Return [mk "EHAM"]
    else Throw (SyntaxError "Unexpected end of JSON input") in
  let JSON_stringify (a : list AirportHandler.Airport) :=
    String.concat "," (map AirportHandler.icao a) in
  let gzip (b : string) := "gz:" +:+ b in
  let details e := mk (AirportHandler.facility_icao e) in
  let init f :=
    AirportHandler.init string gunzip JSON_parse JSON_stringify gzip
      (fun _ => None) details [entry "KSEA"; entry "KBFI"]
      (AirportHandler.start string f) in
  let corrupt := init (AirportHandler.Stored string "not gzip") in
  let stale := init (AirportHandler.Stored string "gz:[EHAM]") in
  fst corrupt = Return tt
  ∧ AirportHandler.this_airports string (snd corrupt) = Some [mk "KSEA"; mk "KBFI"]
  ∧ AirportHandler.db string (snd corrupt) = AirportHandler.Stored string "gz:KSEA,KBFI"
  ∧ head (AirportHandler.console string (snd corrupt))
    = Some (AirportHandler.Line AirportHandler.error "zlib error:"
              (Some (Error "incorrect header check")))
  ∧ fst stale = Return tt
  ∧ AirportHandler.this_airports string (snd stale) = Some [mk "EHAM"]
  ∧ Datatypes.length (AirportHandler.console string (snd stale)) = 2%nat
  ∧ AirportHandler.db string (snd stale) = AirportHandler.Stored string "gz:[EHAM]".
Proof.
  intros mk entry gunzip JSON_parse JSON_stringify gzip details init corrupt stale.
  unfold corrupt, stale, init.
  rewrite !(proj1 (init_cache string gunzip JSON_parse JSON_stringify gzip
                     (fun _ => None) details [entry "KSEA"; entry "KBFI"] _)).
  vm_compute. repeat split; reflexivity.
Defined.

(** * Further properties *)

(** ** Ids over time *)

(** A reserved id is not returned while it is not released. *)
Lemma run_keeps_reserved (calls : list call) (s : api) (r : Z) :
  r ∈ reserved s →
  ReleaseId r ∉ calls →
  Forall (fun a => returned a ≠ r) (fst (run calls s))
  ∧ r ∈ reserved (snd (run calls s)).
Proof.
  revert s. induction calls as [|c calls IH]; intros s Hr Hcalls; simpl.
  - split; [constructor|done].
  - apply not_elem_of_cons in Hcalls as [Hc Hcalls].
    destruct c as [|x].
    + destruct (nextId_least s) as (i & Heq & _ & Hfree & _). rewrite Heq.
      destruct (IH (set_reserved ({[i]} ∪ reserved s) (set_id (i + 1) s)))
        as [Hall Hend]; [simpl; by apply elem_of_union_r|done|].
      destruct (run calls _) as [log s'']. simpl in *.
      split; [|done]. constructor; [|done]. simpl. by intros ->.
    + apply IH; [|done]. simpl. apply elem_of_difference. split; [done|].
      rewrite elem_of_singleton. intros ->. done.
Qed.

(** X1. An id that is reserved and is not released by any of the calls that
    follow is never returned by a [nextId()] among them, and is still
    reserved at the end. *)
Theorem live_id_not_reissued (calls : list call) (s : api) (r : Z) :
  r ∈ reserved s →
  ReleaseId r ∉ calls →
  Forall (fun a => returned a ≠ r) (fst (run calls s))
  ∧ r ∈ reserved (snd (run calls s)).
Proof. apply run_keeps_reserved. Qed.

(** X1 on a new object: the id 1 is taken, then other ids are taken and
    given back; 1 is not returned again. *)
Lemma live_id_not_reissued_witness :
  let s := snd (nextId init) in
  let calls := [NextId; ReleaseId 2; NextId; NextId] in
  1 ∈ reserved s
  ∧ Forall (fun a => returned a ≠ 1) (fst (run calls s))
  ∧ 1 ∈ reserved (snd (run calls s)).
Proof.
  intros s calls.
  assert (1 ∈ reserved s) as H1 by (vm_compute; set_solver).
  split; [exact H1|].
  apply (live_id_not_reissued calls s 1 H1).
  unfold calls. rewrite !not_elem_of_cons. repeat split; try discriminate.
  apply not_elem_of_nil.
Defined.

(** X2. Releasing the id that [nextId()] just returned gives back the
    reserved set from before the call, while the counter stays behind the
    returned id; releasing it a second time changes nothing. *)
Theorem nextId_releaseId_roundtrip (s : api) :
  let r := fst (nextId s) in
  let s1 := snd (nextId s) in
  reserved (releaseId r s1) = reserved s
  ∧ id (releaseId r s1) = r + 1
  ∧ releaseId r (releaseId r s1) = releaseId r s1.
Proof.
  destruct (nextId_least s) as (r & Heq & _ & Hfree & _). rewrite Heq. simpl.
  assert (({[r]} ∪ reserved s) ∖ {[r]} = reserved s) as Hrel.
  { apply set_eq. intros x.
    rewrite elem_of_difference, elem_of_union, elem_of_singleton.
    split; [tauto|]. intros Hx. split; [tauto|]. by intros ->. }
  split; [exact Hrel|]. split; [done|].
  unfold releaseId, set_reserved. simpl. rewrite Hrel. f_equal.
  apply set_eq. intros x. rewrite elem_of_difference, elem_of_singleton.
  split; [tauto|]. intros Hx. split; [done|]. by intros ->.
Qed.

(** X3. [trigger] takes an id and nothing gives it back: after any list of
    triggers every id that was reserved still is, and the reserved set has
    grown by one id for each trigger. *)
Theorem trigger_keeps_its_id (triggers : list (string * value)) (s : api) :
  let s' := foldl (fun s t => snd (trigger t.1 t.2 s)) s triggers in
  reserved s ⊆ reserved s'
  ∧ size (reserved s') = (size (reserved s) + Datatypes.length triggers)%nat
  ∧ eventListeners s' = eventListeners s
  ∧ trace s' = trace s.
Proof.
  revert s. induction triggers as [|[n v] triggers IH]; intros s; simpl.
  - split; [done|]. split; [lia|done].
  - unfold trigger at 2 4 6 8. simpl.
    destruct (nextId_least s) as (i & Heq & _ & Hfree & _). rewrite Heq. simpl.
    destruct (IH (set_reserved ({[i]} ∪ reserved s) (set_id (i + 1) s)))
      as (Hsub & Hsize & He & Ht).
    simpl in *. split; [etrans; [apply union_subseteq_r|exact Hsub]|].
    split; [|done].
    rewrite Hsize, size_union, size_singleton by (by apply disjoint_singleton_l).
    lia.
Qed.

(** ** Registration, dispatch and removal *)

(** The first registration for a name: the entry is stored under the name
    and under the decimal string of its id. *)
Lemma addEventListener_Absent (s : api) (name : string) (h : handler) :
  get_property s name = Absent →
  let i := fst (nextId s) in
  let r := Datatypes.length (heap s) in
  let en := {| eventID := i; eventName := name; data := Undefined; handlers := [h] |} in
  let s1 := snd (addEventListener name h s) in
  addEventListener name h s = (Return tt, s1)
  ∧ eventListeners s1 !! name = Some r
  ∧ eventListeners s1 !! pretty i = Some r
  ∧ heap s1 = heap s ++ [en]
  ∧ trace s1 = trace s ++ [subscribeToSystemEvent i name]
  ∧ i ∈ reserved s1.
Proof.
  intros Habs. unfold addEventListener. rewrite Habs.
  destruct (nextId_least s) as (i & Heq & _). rewrite Heq. simpl.
  split; [done|]. split.
  { destruct (decide (pretty i = name)) as [<-|Hne].
    - by rewrite lookup_insert_eq.
    - rewrite lookup_insert_ne by done. by rewrite lookup_insert_eq. }
  split; [by rewrite lookup_insert_eq|].
  split; [done|]. split; [done|]. apply elem_of_union_l. by apply elem_of_singleton.
Qed.

(** Further registrations for a name whose entry holds no value yet only
    extend the handler list of that entry. *)
Lemma addEventListener_more (hs : list handler) (s : api) (name : string)
    (r : nat) (en : entry) :
  eventListeners s !! name = Some r →
  heap s !! r = Some en →
  data en = Undefined →
  let s' := foldl (fun s h => snd (addEventListener name h s)) s hs in
  id s' = id s ∧ reserved s' = reserved s
  ∧ eventListeners s' = eventListeners s
  ∧ heap s' = <[r := with_handlers (handlers en ++ hs) en]> (heap s)
  ∧ trace s' = trace s.
Proof.
  revert s en. induction hs as [|h hs IH]; intros s en He Hr Hd; simpl.
  - rewrite app_nil_r. repeat (split; [done|]). split; [|done].
    symmetry. destruct en. by apply list_insert_id.
  - assert (get_property s name = Own r en) as Hown by by apply get_property_Own.
    unfold addEventListener at 2 4 6 8 10. rewrite Hown, Hd. simpl.
    pose proof (lookup_lt_Some _ _ _ Hr) as Hlt.
    destruct (IH (set_heap (<[r := with_handlers (handlers en ++ [h]) en]> (heap s)) s)
                (with_handlers (handlers en ++ [h]) en))
      as (Hid & Hres & He' & Hheap & Htr).
    + done.
    + simpl. by apply list_lookup_insert_eq.
    + done.
    + simpl in *. repeat (split; [done|]). split; [|done].
      rewrite Hheap, list_insert_insert_eq. simpl. by rewrite <- app_assoc.
Qed.

(** An event whose id is a key of an entry: the value is stored in the
    entry and every handler of the entry is called with it, in order. *)
Lemma handleSystemEvent_Own (s : api) (ev : system_event) (r : nat) (en : entry) :
  get_property s (pretty (clientEventId ev)) = Own r en →
  handleSystemEvent ev s
  = (Return tt,
     {| id := id s; reserved := reserved s; eventListeners := eventListeners s;
        heap := <[r := with_data (event_data ev) en]> (heap s);
        trace := trace s ++ map (fun h => invoke h (event_data ev)) (handlers en) |}).
Proof.
  intros Hown. unfold handleSystemEvent. rewrite Hown.
  by rewrite forEach_invoke.
Qed.

(** X4. After a first registration for [name] and any number of further
    ones, an event that carries the id of the subscription calls every
    registered handler once with the event's value, in the order of
    registration, and the value is stored in the entry of [name]. *)
Theorem dispatch_reaches_listeners (s : api) (name : string) (h1 : handler)
    (hs : list handler) (d : value) :
  get_property s name = Absent →
  let eventID := fst (nextId s) in
  let s1 := snd (addEventListener name h1 s) in
  let s2 := foldl (fun s h => snd (addEventListener name h s)) s1 hs in
  let event := {| clientEventId := eventID; event_data := d |} in
  let s3 := snd (handleSystemEvent event s2) in
  trace s2 = trace s ++ [subscribeToSystemEvent eventID name]
  ∧ handleSystemEvent event s2 = (Return tt, s3)
  ∧ trace s3 = trace s2 ++ map (fun h => invoke h d) (h1 :: hs)
  ∧ ∃ r en, get_property s3 name = Own r en
            ∧ data en = d ∧ handlers en = h1 :: hs.
Proof.
  intros Habs eventID s1 s2 event s3.
  destruct (addEventListener_Absent s name h1 Habs)
    as (_ & Hname & Hid & Hheap & Htr & _).
  fold eventID s1 in Hname, Hid, Hheap, Htr.
  set (en := {| eventID := eventID; eventName := name; data := Undefined;
                handlers := [h1] |}) in *.
  assert (heap s1 !! Datatypes.length (heap s) = Some en) as Hen.
  { rewrite Hheap. by apply list_lookup_middle. }
  destruct (addEventListener_more hs s1 name _ en Hname Hen eq_refl)
    as (_ & _ & He2 & Hheap2 & Htr2).
  fold s2 in He2, Hheap2, Htr2.
  assert (Datatypes.length (heap s) < Datatypes.length (heap s1))%nat as Hlt
    by (by apply lookup_lt_Some in Hen).
  assert (get_property s2 (pretty (clientEventId event))
          = Own (Datatypes.length (heap s)) (with_handlers (h1 :: hs) en)) as Hown.
  { apply get_property_Own. rewrite He2, Hheap2. split; [exact Hid|].
    by apply list_lookup_insert_eq. }
  pose proof (handleSystemEvent_Own s2 event _ _ Hown) as Hev.
  split; [by rewrite Htr2|].
  unfold s3. rewrite Hev. simpl.
  split; [done|]. split; [done|].
  eexists _, _. split.
  - apply get_property_Own. simpl. rewrite He2. split; [exact Hname|].
    apply list_lookup_insert_eq. by rewrite Hheap2, length_insert.
  - done.
Qed.

(** X4 on a new object: three handlers for ["Pause"], the event with id 1
    and value 1. *)
Lemma dispatch_reaches_listeners_witness :
  let s2 := perform_all [Add "Pause" 7%nat; Add "Pause" 8%nat; Add "Pause" 9%nat] init in
  get_property init "Pause" = Absent
  ∧ trace (snd (handleSystemEvent {| clientEventId := 1; event_data := Number 1 |} s2))
    = [subscribeToSystemEvent 1 "Pause"; invoke 7%nat (Number 1);
       invoke 8%nat (Number 1); invoke 9%nat (Number 1)].
Proof.
  intros s2. split; [reflexivity|].
  destruct (dispatch_reaches_listeners init "Pause" 7%nat [8%nat; 9%nat] (Number 1)
              eq_refl) as (Htr2 & _ & Htr3 & _).
  etransitivity; [exact Htr3|]. rewrite Htr2. reflexivity.
Defined.

(** X5. A handler registered after an event was dispatched is called during
    its registration, once, with the dispatched value, exactly when that
    value is truthy; the registration makes no subscribe call. *)
Theorem late_listener_replay (s : api) (name : string) (h1 h2 : handler) (d : value) :
  get_property s name = Absent →
  let eventID := fst (nextId s) in
  let s1 := snd (addEventListener name h1 s) in
  let s2 := snd (handleSystemEvent {| clientEventId := eventID; event_data := d |} s1) in
  let s3 := snd (addEventListener name h2 s2) in
  addEventListener name h2 s2 = (Return tt, s3)
  ∧ trace s3
    = trace s ++ [subscribeToSystemEvent eventID name; invoke h1 d]
      ++ (if truthy d then [invoke h2 d] else []).
Proof.
  intros Habs eventID s1 s2 s3.
  destruct (dispatch_reaches_listeners s name h1 [] d Habs)
    as (Htr1 & Hev & Htr2 & r & en & Hown & Hd & _).
  simpl in Htr1, Hev, Htr2, Hown. fold eventID s1 in Htr1, Hev, Htr2, Hown.
  fold s2 in Hev, Htr2, Hown.
  destruct (addEventListener_existing s2 name h2 r en Hown) as (s' & Hadd & _ & Htr3).
  unfold s3. rewrite Hadd. simpl. split; [done|].
  rewrite Htr3, Htr2, Htr1, Hd. by rewrite <- !app_assoc.
Qed.

(** X5 on a new object, with the truthy value 1 and with the falsy value
    of an empty text. *)
Lemma late_listener_replay_witness :
  get_property init "Sim" = Absent
  ∧ trace (perform_all [Add "Sim" 1%nat;
                        Event {| clientEventId := 1; event_data := Number 1 |};
                        Add "Sim" 2%nat] init)
    = [subscribeToSystemEvent 1 "Sim"; invoke 1%nat (Number 1); invoke 2%nat (Number 1)]
  ∧ trace (perform_all [Add "Sim" 1%nat;
                        Event {| clientEventId := 1; event_data := Str EmptyString |};
                        Add "Sim" 2%nat] init)
    = [subscribeToSystemEvent 1 "Sim"; invoke 1%nat (Str EmptyString)].
Proof.
  split; [reflexivity|]. split.
  - exact (proj2 (late_listener_replay init "Sim" 1%nat 2%nat (Number 1) eq_refl)).
  - exact (proj2 (late_listener_replay init "Sim" 1%nat 2%nat (Str EmptyString) eq_refl)).
Defined.

Lemma findIndex_None (x : handler) (l : list handler) :
  findIndex x l = None ↔ x ∉ l.
Proof.
  induction l as [|h l IH]; simpl.
  - split; [intros _; apply not_elem_of_nil|done].
  - rewrite not_elem_of_cons. destruct (Nat.eqb_spec h x) as [->|Hne].
    + split; [done|]. intros [? _]. done.
    + destruct (findIndex x l); simpl; split; try done.
      * intros [_ Hl]. by apply IH in Hl.
      * intros _. split; [done|]. by apply IH.
Qed.

Lemma findIndex_first (x : handler) (l1 l2 : list handler) :
  x ∉ l1 → findIndex x (l1 ++ x :: l2) = Some (Datatypes.length l1).
Proof.
  induction l1 as [|h l1 IH]; simpl; intros Hx.
  - by rewrite Nat.eqb_refl.
  - apply not_elem_of_cons in Hx as [Hne Hx].
    destruct (Nat.eqb_spec h x) as [->|_]; [done|]. by rewrite IH.
Qed.

(** X6. [removeEventListener] on a name that has an entry removes the first
    occurrence of the handler from the entry's list and nothing else: a
    handler registered twice stays registered once, a handler that is not
    in the list leaves the object as it is, and in no case is anything sent
    to the simulator, an id released or the entry removed. *)
Theorem removeEventListener_first_occurrence (s : api) (name : string)
    (h : handler) (r : nat) (en : entry) :
  get_property s name = Own r en →
  (h ∉ handlers en → removeEventListener name h s = (Return tt, s))
  ∧ (∀ l1 l2, handlers en = l1 ++ h :: l2 → h ∉ l1 →
       removeEventListener name h s
       = (Return tt,
          {| id := id s; reserved := reserved s; eventListeners := eventListeners s;
             heap := <[r := with_handlers (l1 ++ l2) en]> (heap s);
             trace := trace s |})).
Proof.
  intros Hown. unfold removeEventListener. rewrite Hown. split.
  - intros Hh. apply findIndex_None in Hh. by rewrite Hh.
  - intros l1 l2 Hl Hh. rewrite Hl, findIndex_first by done.
    replace (delete (Datatypes.length l1) (l1 ++ h :: l2)) with (l1 ++ l2); [done|].
    clear. induction l1 as [|x l1 IH]; simpl; [done|]. by rewrite <- IH.
Qed.

(** X6 on an object where handler 5 was registered twice for ["Pause"],
    between two other handlers. *)
Lemma removeEventListener_first_occurrence_witness :
  let s := perform_all [Add "Pause" 4%nat; Add "Pause" 5%nat; Add "Pause" 6%nat;
                        Add "Pause" 5%nat] init in
  ∃ r en,
    get_property s "Pause" = Own r en
    ∧ handlers en = [4; 5; 6; 5]%nat
    ∧ get_property (snd (removeEventListener "Pause" 5%nat s)) "Pause"
      = Own r (with_handlers [4; 6; 5]%nat en)
    ∧ removeEventListener "Pause" 9%nat s = (Return tt, s).
Proof.
  intros s.
  assert (∃ r en, get_property s "Pause" = Own r en ∧ handlers en = [4; 5; 6; 5]%nat)
    as (r & en & Hown & Hh) by (eexists _, _; split; vm_compute; reflexivity).
  exists r, en. split; [exact Hown|]. split; [exact Hh|].
  destruct (removeEventListener_first_occurrence s "Pause" 5%nat r en Hown) as [_ Hrm].
  destruct (removeEventListener_first_occurrence s "Pause" 9%nat r en Hown) as [Hno _].
  split.
  - rewrite (Hrm [4%nat] [6; 5]%nat Hh).
    + apply get_property_Own in Hown as [He Hr]. apply get_property_Own. simpl.
      split; [exact He|]. apply list_lookup_insert_eq. by apply lookup_lt_Some in Hr.
    + apply not_elem_of_cons. split; [discriminate|apply not_elem_of_nil].
  - apply Hno. rewrite Hh. rewrite !not_elem_of_cons.
    repeat split; try discriminate. apply not_elem_of_nil.
Defined.

(** X7. When [on(definition, handler)] returns, the function it returns can
    be called at any later time, any number of times: [off] finds the entry
    of the name and returns, whatever was done with the object in between. *)
Theorem on_returns_safe_off (inRange outOfRange name : string) (h : handler)
    (s s1 : api) (f : option off_function) (qs : list request) :
  on inRange outOfRange (Some name) h s = (Return f, s1) →
  f = Some {| off_name := name; off_handler := h |}
  ∧ ∃ s', off name h (perform_all qs s1) = (Return tt, s').
Proof.
  intros Hon.
  assert (addEventListener name h s = (Return tt, s1)
          ∧ f = Some {| off_name := name; off_handler := h |}) as [Hadd Hf].
  { destruct (addEventListener name h s) as [[[]|e] s'] eqn:Hadd;
      unfold on, __subscribeToAirports, bind, ret in Hon;
      case_bool_decide; rewrite Hadd in Hon; by simplify_eq. }
  split; [exact Hf|].
  pose proof (registered_stays_owned s s1 name h qs Hadd) as Hown.
  apply owned_get_property in Hown as (r & en & Hown).
  unfold off, removeEventListener. rewrite Hown.
  destruct (findIndex h (handlers en)); eauto.
Qed.

(** X7 on a new object: [on] for ["Pause"], then other use of the object
    that includes two calls of the returned function. *)
Lemma on_returns_safe_off_witness :
  ∃ s1,
    on "AirportsInRange" "AirportsOutOfRange" (Some "Pause") 3%nat init
    = (Return (Some {| off_name := "Pause"; off_handler := 3%nat |}), s1)
    ∧ ∃ s',
        off "Pause" 3%nat
          (perform_all [Remove "Pause" 3%nat; Allocate; Remove "Pause" 3%nat] s1)
        = (Return tt, s').
Proof.
  eexists. split; [vm_compute; reflexivity|].
  eapply (proj2 (on_returns_safe_off "AirportsInRange" "AirportsOutOfRange" "Pause"
                   3%nat init _ _ _ _)).
  Unshelve. 2: vm_compute; reflexivity.
Defined.

(** The decimal string of an integer starts with a digit or a minus sign,
    so it is not the name of a member of [Object.prototype]. *)
Lemma pretty_N_go_digit (x : N) (s : string) :
  (∃ y rest, s = String (pretty_N_char y) rest) →
  ∃ y rest, pretty_N_go x s = String (pretty_N_char y) rest.
Proof.
  revert s. induction (N.lt_wf_0 x) as [x _ IH]; intros s Hs.
  destruct (decide (x = 0)%N) as [->|Hx].
  - by rewrite pretty_N_go_0.
  - rewrite pretty_N_go_step by lia. apply IH.
    + apply N.div_lt; lia.
    + eauto.
Qed.

Lemma pretty_Z_first (k : Z) :
  ∃ c rest, pretty k = String c rest
            ∧ (c = "-"%char ∨ ∃ y, c = pretty_N_char y).
Proof.
  destruct k as [|p|p].
  - exists "0"%char, EmptyString. split; [done|]. right. by exists 0%N.
  - unfold pretty, pretty_Z, pretty, pretty_positive, pretty, pretty_N.
    case_decide; [done|].
    rewrite pretty_N_go_step by lia.
    destruct (pretty_N_go_digit (N.pos p `div` 10)
                (String (pretty_N_char (N.pos p `mod` 10)) EmptyString))
      as (y & rest & ->); eauto 6.
  - unfold pretty, pretty_Z. eexists _, _. split; [reflexivity|]. by left.
Qed.

Lemma pretty_Z_not_in_prototype (k : Z) : pretty k ∉ Object_prototype.
Proof.
  destruct (pretty_Z_first k) as (c & rest & -> & Hc).
  unfold Object_prototype. rewrite !not_elem_of_cons.
  assert (c ≠ "c"%char ∧ c ≠ "_"%char ∧ c ≠ "h"%char ∧ c ≠ "i"%char
          ∧ c ≠ "p"%char ∧ c ≠ "t"%char ∧ c ≠ "v"%char) as (?&?&?&?&?&?&?).
  { destruct Hc as [->|[y ->]]; [repeat split; discriminate|].
    unfold pretty_N_char. repeat case_match; repeat split; discriminate. }
  repeat split; try (intros [= ? _]; done). apply not_elem_of_nil.
Qed.

(** While an id stays reserved, no entry is stored under its decimal
    string, unless a listener is registered for that string as a name. *)
Lemma perform_all_reserved_key_free (qs : list request) (s : api) (i : Z) :
  i ∈ reserved s →
  eventListeners s !! pretty i = None →
  Forall (fun q => q ≠ Release i ∧ ∀ h, q ≠ Add (pretty i) h) qs →
  i ∈ reserved (perform_all qs s)
  ∧ eventListeners (perform_all qs s) !! pretty i = None.
Proof.
  intros Hres Hkey Hqs. revert s Hres Hkey.
  induction Hqs as [|q qs [Hrel Hadd] _ IH]; intros s Hres Hkey; simpl; [done|].
  apply IH; destruct q as [n h|n h|ev| |x]; simpl.
  - unfold addEventListener.
    destruct (get_property s n) as [|r en|]; simpl; [| |done].
    + destruct (nextId_least s) as (j & Heq & _). rewrite Heq. simpl.
      by apply elem_of_union_r.
    + by destruct (truthy (data en)).
  - unfold off, removeEventListener.
    destruct (get_property s n) as [|r en|]; simpl; [done| |done].
    by destruct (findIndex h (handlers en)).
  - unfold handleSystemEvent.
    destruct (get_property s (pretty (clientEventId ev))) as [|r en|];
      simpl; [done| |done].
    by rewrite forEach_invoke.
  - destruct (nextId_least s) as (j & Heq & _). rewrite Heq. simpl.
    by apply elem_of_union_r.
  - apply elem_of_difference. split; [done|]. rewrite elem_of_singleton.
    intros ->. done.
  - unfold addEventListener.
    destruct (get_property s n) as [|r en|]; simpl; [| |done].
    + destruct (nextId_least s) as (j & Heq & _ & Hfree & _). rewrite Heq. simpl.
      rewrite lookup_insert_ne.
      * rewrite lookup_insert_ne; [done|]. intros ->. by apply (Hadd h).
      * intros Hp. apply (inj pretty) in Hp. by subst.
    + by destruct (truthy (data en)).
  - unfold off, removeEventListener.
    destruct (get_property s n) as [|r en|]; simpl; [done| |done].
    by destruct (findIndex h (handlers en)).
  - unfold handleSystemEvent.
    destruct (get_property s (pretty (clientEventId ev))) as [|r en|];
      simpl; [done| |done].
    by rewrite forEach_invoke.
  - destruct (nextId_least s) as (j & Heq & _). by rewrite Heq.
  - done.
Qed.

(** X8. The ["airportList"] listener that [addAirportHandling] installs
    looks for listeners under the request id of the message.  The two ids
    that [addAirportHandling] took stay reserved, so no registration is ever
    stored under them: a message for either id calls no handler and changes
    nothing, whatever listeners were registered since (for event names
    other than the two decimal strings) and whatever ids were taken or
    released (other than these two). *)
Theorem airportList_reaches_no_listener (s : api) (qs : list request)
    (data : airportList) :
  let IN_RANGE := fst (fst (addAirportHandling s)) in
  let OUT_OF_RANGE := snd (fst (addAirportHandling s)) in
  let s1 := snd (addAirportHandling s) in
  eventListeners s !! pretty IN_RANGE = None →
  eventListeners s !! pretty OUT_OF_RANGE = None →
  Forall (fun q => (q ≠ Release IN_RANGE ∧ ∀ h, q ≠ Add (pretty IN_RANGE) h)
                   ∧ (q ≠ Release OUT_OF_RANGE ∧ ∀ h, q ≠ Add (pretty OUT_OF_RANGE) h))
         qs →
  requestID data = IN_RANGE ∨ requestID data = OUT_OF_RANGE →
  on_airportList data (perform_all qs s1) = (Return tt, perform_all qs s1).
Proof.
  unfold addAirportHandling.
  destruct (nextId_least s) as (i & Heq & _). rewrite Heq.
  destruct (nextId_least (set_reserved ({[i]} ∪ reserved s) (set_id (i + 1) s)))
    as (j & Heq' & _). rewrite Heq'. simpl.
  intros Hi Hj Hqs Hid.
  match goal with |- context [perform_all qs ?x] => set (s2 := x) end.
  assert (∀ k, k = i ∨ k = j → eventListeners (perform_all qs s2) !! pretty k = None)
    as Hfree.
  { intros k [->| ->].
    - apply (perform_all_reserved_key_free qs s2 i).
      + simpl. apply elem_of_union_r, elem_of_union_l. by apply elem_of_singleton.
      + done.
      + eapply Forall_impl; [exact Hqs|]. by intros q [? _].
    - apply (perform_all_reserved_key_free qs s2 j).
      + simpl. apply elem_of_union_l. by apply elem_of_singleton.
      + done.
      + eapply Forall_impl; [exact Hqs|]. by intros q [_ ?]. }
  unfold on_airportList, get_property.
  rewrite (Hfree (requestID data) Hid).
  case_bool_decide as Hproto; [|done].
  by apply pretty_Z_not_in_prototype in Hproto.
Qed.

(** X8 on a new object: after [addAirportHandling] (ids 1 and 2), handlers
    are registered for the two airport events and for ["Pause"]; a list for
    request 1 reaches none of them. *)
Lemma airportList_reaches_no_listener_witness :
  let s := perform_all [Add "AirportsInRange" 1%nat; Add "AirportsOutOfRange" 2%nat;
                        Add "Pause" 3%nat; Allocate; Release 4]
             (snd (addAirportHandling init)) in
  fst (addAirportHandling init) = (1, 2)
  ∧ on_airportList {| requestID := 1; airports := Object 0; aiports := Undefined |} s
    = (Return tt, s).
Proof.
  intros s. split; [vm_compute; reflexivity|].
  apply (airportList_reaches_no_listener init
           [Add "AirportsInRange" 1%nat; Add "AirportsOutOfRange" 2%nat;
            Add "Pause" 3%nat; Allocate; Release 4]
           {| requestID := 1; airports := Object 0; aiports := Undefined |}).
  - reflexivity.
  - reflexivity.
  - repeat constructor; try discriminate; intros h; discriminate.
  - left. vm_compute. reflexivity.
Defined.

(** ** set and get that succeed *)

(** X9. [set] of a known property.  When [def.write] accepts the value,
    [set] takes an id, defines the property under it, writes the value and
    leaves the cleanup to a 500 ms timer; until the timer runs the id stays
    reserved, so no [nextId()] returns it; when the timer runs the
    definition is cleared and the reserved set is the one from before the
    call.  When [def.write] throws (a read-only variable), [set] throws the
    same exception before anything is sent or scheduled, and the id it took
    stays reserved. *)
Theorem set_then_cleanup (SimVars : string → option simvar)
    (numeric : value → option Z) (write_error : simvar → value → option exn)
    (s : api) (propName : string) (v : value) (def : simvar) :
  let name := replaceAll "_" " " propName in
  let DATA_ID := fst (nextId s) in
  let written := match numeric v with Some n => Number n | None => v end in
  SimVars name = Some def →
  match write_error def written with
  | None =>
      ∃ s1,
        set SimVars numeric write_error propName v s = (Return tt, s1)
        ∧ trace s1
          = trace s ++ [addToDataDefinition DATA_ID name def;
                        setDataOnSimObject DATA_ID written;
                        setTimeout (ReleaseAndClear DATA_ID) 500]
        ∧ (∀ calls, ReleaseId DATA_ID ∉ calls →
             Forall (fun a => returned a ≠ DATA_ID) (fst (run calls s1)))
        ∧ reserved (fire (ReleaseAndClear DATA_ID) s1) = reserved s
        ∧ trace (fire (ReleaseAndClear DATA_ID) s1)
          = trace s1 ++ [clearDataDefinition DATA_ID]
  | Some e =>
      ∃ s1,
        set SimVars numeric write_error propName v s = (Throw e, s1)
        ∧ trace s1 = trace s
        ∧ reserved s1 = {[DATA_ID]} ∪ reserved s
        ∧ (DATA_ID ∉ reserved s)
  end.
Proof.
  intros name DATA_ID written Hdef. unfold set, SimVars_lookup. fold name.
  unfold DATA_ID.
  destruct (nextId_least s) as (r & Heq & _ & Hfree & _). rewrite Heq, Hdef.
  fold written. destruct (write_error def written) as [e|]; simpl.
  { eexists. split; [reflexivity|]. done. }
  eexists. split; [reflexivity|]. simpl. split; [by rewrite <- !app_assoc|].
  split.
  { intros calls Hcalls. apply run_keeps_reserved; [|done]. simpl.
    apply elem_of_union_l. by apply elem_of_singleton. }
  split; [|done].
  apply set_eq. intros x.
  rewrite elem_of_difference, elem_of_union, elem_of_singleton.
  split; [tauto|]. intros Hx. split; [tauto|]. by intros ->.
Qed.

(** X9 on a new object whose table knows ["PLANE LATITUDE"] and whose
    [write] accepts numbers only.  The value given as text that [numeric]
    reads as 5 is written; the value [true] is refused, and the id 1 stays
    reserved. *)
Lemma set_then_cleanup_witness :
  let def := {| units := "radians"; data_type := 4 |} in
  let SimVars n := if String.eqb n "PLANE LATITUDE" then Some def else None in
  let numeric v := match v with Str "5" => Some 5 | Number n => Some n | _ => None end in
  let write_error (d : simvar) (v : value) :=
    match v with
    | Number _ => None
    | _ => Some (Error "SimVar is not settable")
    end in
  (∃ s1,
     set SimVars numeric write_error "PLANE_LATITUDE" (Str "5") init = (Return tt, s1)
     ∧ trace s1 = [addToDataDefinition 1 "PLANE LATITUDE" def;
                   setDataOnSimObject 1 (Number 5);
                   setTimeout (ReleaseAndClear 1) 500]
     ∧ reserved (fire (ReleaseAndClear 1) s1) = ∅)
  ∧ (∃ s1,
       set SimVars numeric write_error "PLANE_LATITUDE" (Bool true) init
       = (Throw (Error "SimVar is not settable"), s1)
       ∧ trace s1 = []
       ∧ reserved s1 = {[1]} ∪ ∅).
Proof.
  intros def SimVars numeric write_error. split.
  - destruct (set_then_cleanup SimVars numeric write_error init "PLANE_LATITUDE"
                (Str "5") def eq_refl)
      as (s1 & Hset & Htr & _ & Hres & _).
    exists s1. split; [exact Hset|]. split; [exact Htr|exact Hres].
  - destruct (set_then_cleanup SimVars numeric write_error init "PLANE_LATITUDE"
                (Bool true) def eq_refl)
      as (s1 & Hset & Htr & Hres & _).
    exists s1. split; [exact Hset|]. split; [exact Htr|exact Hres].
Defined.

(** [codeSafe] after the replacement of underscores: every underscore and
    every space becomes an underscore. *)
Lemma codeSafe_normalized (s : string) :
  codeSafe (replaceAll "_" " " s) = codeSafe s.
Proof.
  unfold codeSafe. induction s as [|c s IH]; simpl; [done|]. rewrite IH. f_equal.
  destruct (Ascii.eqb_spec c "_") as [->|]; [done|]. done.
Qed.



(** X10. The key under which [get] delivers a property: a requested name
    that has no space in it (words joined by underscores) is its own key,
    although the property is looked up under the name with spaces. *)
Theorem result_key_of_underscored_name (propName : string) :
  includes " " propName = false →
  codeSafe (replaceAll "_" " " propName) = propName.
Proof.
  intros Hsp. rewrite codeSafe_normalized. revert Hsp. unfold codeSafe, includes.
  induction propName as [|c s IH]; simpl; [done|].
  destruct (Ascii.eqb_spec c " ") as [->|Hc]; [done|].
  destruct (indexOf " " s); simpl; [done|]. intros _. by rewrite IH.
Qed.

Lemma result_key_of_underscored_name_witness :
  includes " " "PLANE_LATITUDE" = false
  ∧ replaceAll "_" " " "PLANE_LATITUDE" = "PLANE LATITUDE"
  ∧ codeSafe (replaceAll "_" " " "PLANE_LATITUDE") = "PLANE_LATITUDE".
Proof.
  split; [reflexivity|]. split; [reflexivity|].
  apply result_key_of_underscored_name. reflexivity.
Defined.

Section Known.

Variable SimVars : string → option simvar.
Variable buffer : Type.
Variable read : simvar → buffer → value.





End Known.


(** ** connect *)

(** A failed attempt with retries left: the next attempt is scheduled. *)
Lemma connect_attempts_retry (c : connection) (rest : list bool) :
  nonzero (retries c) = true →
  connect_attempts (false :: rest) c
  = (Return tt
       :: fst (connect_attempts rest
                 {| this := this c; connected := connected c;
                    retries := decrement (retries c);
                    retryInterval := retryInterval c;
                    events := events c ++ [onRetry (decrement (retries c)) (retryInterval c);
                                           retry_in (1000 * retryInterval c)] |}),
     snd (connect_attempts rest
            {| this := this c; connected := connected c;
               retries := decrement (retries c);
               retryInterval := retryInterval c;
               events := events c ++ [onRetry (decrement (retries c)) (retryInterval c);
                                      retry_in (1000 * retryInterval c)] |})).
Proof.
  intros Hnz. cbn [connect_attempts]. unfold connect. rewrite Hnz. simpl.
  by destruct (connect_attempts rest _).
Qed.

(** X12. With [retries = n ≥ 0] and a simulator that cannot be reached,
    [connect] is run [n + 1] times: each of the first [n] runs calls
    [onRetry] with the number of retries left (from [n - 1] down to 0) and
    sets the timer for the next run, and returns; the last run throws
    ["No connection to MSFS"].  So the application's own call throws only
    when [n] is 0; otherwise it returns and the error is thrown in a timer. *)
Theorem connect_gives_up (n : nat) (c : connection) (more : list bool) :
  retries c = Finite (Z.of_nat n) →
  connect_attempts (replicate (S n) false ++ more) c
  = (replicate n (Return tt) ++ [Throw (Error "No connection to MSFS")],
     {| this := this c; connected := connected c; retries := Finite 0;
        retryInterval := retryInterval c;
        events :=
          events c
          ++ flat_map (fun k => [onRetry (Finite (Z.of_nat k)) (retryInterval c);
                                 retry_in (1000 * retryInterval c)])
               (rev (seq 0 n)) |}).
Proof.
  revert c. induction n as [|n IH]; intros c Hc.
  - simpl. unfold connect. rewrite Hc. simpl. rewrite app_nil_r.
    destruct c; simpl in *; by subst.
  - change (replicate (S (S n)) false ++ more)
      with (false :: (replicate (S n) false ++ more)).
    cbn [connect_attempts]. unfold connect at 1. rewrite Hc.
    assert (nonzero (Finite (Z.of_nat (S n))) = true) as ->.
    { unfold nonzero. apply negb_true_iff, Z.eqb_neq. lia. }
    cbn [negb andb decrement].
    replace (Z.of_nat (S n) - 1) with (Z.of_nat n) by lia.
    rewrite IH by done. cbn [this connected retries retryInterval events].
    rewrite seq_S, rev_app_distr. simpl. by rewrite <- !app_assoc.
Qed.

Lemma connect_gives_up_witness :
  let c := {| this := init; connected := false; retries := Finite 2;
              retryInterval := 5; events := [] |} in
  fst (connect_attempts [false; false; false; true] c)
  = [Return tt; Return tt; Throw (Error "No connection to MSFS")]
  ∧ events (snd (connect_attempts [false; false; false; true] c))
    = [onRetry (Finite 1) 5; retry_in 5000; onRetry (Finite 0) 5; retry_in 5000].
Proof.
  intros c.
  pose proof (connect_gives_up 2 c [true] eq_refl) as H.
  change (replicate 3 false ++ [true]) with [false; false; false; true] in H.
  rewrite H. split; reflexivity.
Defined.

(** X13. With [retries] negative or [Infinity] the test [if (opts.retries)]
    never fails: however often the simulator cannot be reached, every run
    of [connect] returns after setting the timer for the next, and none
    throws. *)
Theorem connect_never_gives_up (k : nat) (c : connection) :
  retries c = Infinity ∨ (∃ z, retries c = Finite z ∧ z < 0) →
  fst (connect_attempts (replicate k false) c) = replicate k (Return tt)
  ∧ Datatypes.length (events (snd (connect_attempts (replicate k false) c)))
    = (Datatypes.length (events c) + 2 * k)%nat.
Proof.
  revert c. induction k as [|k IH]; intros c Hc.
  - simpl. split; [done|lia].
  - assert (nonzero (retries c) = true) as Hnz.
    { destruct Hc as [->|(z & -> & Hz)]; [done|].
      unfold nonzero. apply negb_true_iff, Z.eqb_neq. lia. }
    cbn [replicate]. rewrite connect_attempts_retry by done. cbn [fst snd].
    match goal with
    | |- context [connect_attempts _ ?c1] => destruct (IH c1) as [Hout Hev]
    end.
    { simpl. destruct Hc as [->|(z & -> & Hz)]; [by left|].
      right. exists (z - 1). split; [done|lia]. }
    rewrite Hout, Hev. simpl. rewrite length_app. simpl. split; [done|lia].
Qed.

Lemma connect_never_gives_up_witness :
  let c := {| this := init; connected := false; retries := Finite (-1);
              retryInterval := 0; events := [] |} in
  fst (connect_attempts (replicate 50 false) c) = replicate 50 (Return tt).
Proof.
  intros c. apply (connect_never_gives_up 50 c).
  right. exists (-1). split; [reflexivity|lia].
Defined.

(** X14. When the simulator is reached after [k] failed attempts and
    [retries] was at least [k], no run of [connect] throws, the object is
    connected, [retries] has gone down by [k], and the successful run has
    taken two distinct ids for the airport lists, which are reserved; later
    results of [open] play no part. *)
Theorem connect_after_failures (k : nat) (n : Z) (c : connection) (more : list bool) :
  retries c = Finite n →
  Z.of_nat k ≤ n →
  let c' := snd (connect_attempts (replicate k false ++ true :: more) c) in
  let ids := fst (addAirportHandling (this c)) in
  fst (connect_attempts (replicate k false ++ true :: more) c)
  = replicate (S k) (Return tt)
  ∧ connected c' = true
  ∧ retries c' = Finite (n - Z.of_nat k)
  ∧ this c' = snd (addAirportHandling (this c))
  ∧ last (events c') = Some (subscribeToFacilitiesEx1 ids.1 ids.2)
  ∧ ids.1 ≠ ids.2
  ∧ ids.1 ∈ reserved (this c') ∧ ids.2 ∈ reserved (this c').
Proof.
  revert n c. induction k as [|k IH]; intros n c Hc Hk.
  - simpl. unfold connect, addAirportHandling.
    destruct (nextId_least (this c)) as (i & Heq & _ & Hi & _). rewrite Heq.
    destruct (nextId_least (set_reserved ({[i]} ∪ reserved (this c))
                              (set_id (i + 1) (this c))))
      as (j & Heq' & _ & Hj & _). rewrite Heq'. simpl in *.
    split; [done|]. split; [done|]. split; [rewrite Hc; f_equal; lia|].
    split; [done|].
    split.
    { change (events c ++ [onConnect; subscribeToFacilitiesEx1 i j])
        with (events c ++ [onConnect] ++ [subscribeToFacilitiesEx1 i j]).
      by rewrite app_assoc, last_snoc. }
    split; [intros ->; apply Hj, elem_of_union_l; by apply elem_of_singleton|].
    split.
    + apply elem_of_union_r, elem_of_union_l. by apply elem_of_singleton.
    + apply elem_of_union_l. by apply elem_of_singleton.
  - change (replicate (S k) false ++ true :: more)
      with (false :: (replicate k false ++ true :: more)).
    assert (nonzero (retries c) = true) as Hnz.
    { rewrite Hc. unfold nonzero. apply negb_true_iff, Z.eqb_neq. lia. }
    rewrite connect_attempts_retry by done. rewrite Hc. cbn [fst snd decrement].
    match goal with
    | |- context [connect_attempts _ ?c1] =>
        pose proof (IH (n - 1) c1) as IH'
    end.
    cbn [this retries] in IH'.
    destruct IH' as (Hout & Hconn & Hret & Hthis & Hrest); [done|lia|].
    rewrite Hout. split; [done|]. split; [exact Hconn|].
    split; [rewrite Hret; f_equal; lia|]. split; [exact Hthis|]. exact Hrest.
Qed.

Lemma connect_after_failures_witness :
  let c := {| this := init; connected := false; retries := Finite 3;
              retryInterval := 2; events := [] |} in
  let c' := snd (connect_attempts [false; false; true; false] c) in
  fst (connect_attempts [false; false; true; false] c) = [Return tt; Return tt; Return tt]
  ∧ connected c' = true ∧ retries c' = Finite 1
  ∧ last (events c') = Some (subscribeToFacilitiesEx1 1 2).
Proof.
  intros c c'.
  destruct (connect_after_failures 2 3 c [false] eq_refl) as (H1 & H2 & H3 & _ & H5 & _).
  - lia.
  - split; [exact H1|]. split; [exact H2|]. split; [exact H3|exact H5].
Defined.

(** ** The airport extension *)

Lemma nextIds_cycle (n : nat) (k : Z) (id : Z) :
  0 ≤ k →
  id = 100 + k `mod` 801 ∨ (k `mod` 801 = 0 ∧ id = 901) →
  ∀ i r, fst (AirportHandler.nextIds n id) !! i = Some r →
         r = 100 + (k + Z.of_nat i) `mod` 801.
Proof.
  revert k id. induction n as [|n IH]; intros k id Hk Hid i r; [done|].
  cbn [AirportHandler.nextIds].
  assert (AirportHandler.nextId id = (100 + k `mod` 801, 101 + k `mod` 801)) as Hn.
  { unfold AirportHandler.nextId, AirportHandler.startId.
    pose proof (Z.mod_pos_bound k 801 ltac:(lia)).
    destruct Hid as [->|[H0 ->]].
    - destruct (Z.gtb_spec (100 + k `mod` 801) 900); [lia|]. f_equal. lia.
    - rewrite H0. simpl. done. }
  rewrite Hn.
  destruct (AirportHandler.nextIds n (101 + k `mod` 801)) as [rs id''] eqn:Hrs.
  destruct i as [|i]; simpl.
  - intros [= <-]. by rewrite Z.add_0_r.
  - intros Hi. replace (k + Z.of_nat (S i)) with ((k + 1) + Z.of_nat i) by lia.
    apply (IH (k + 1) (101 + k `mod` 801)); [lia| |by rewrite Hrs].
    pose proof (Z.mod_pos_bound k 801 ltac:(lia)).
    destruct (decide (k `mod` 801 = 800)) as [H800|Hne].
    + right. split; [|lia].
      rewrite <- Zplus_mod_idemp_l, H800. done.
    + left. rewrite <- Zplus_mod_idemp_l.
      rewrite (Z.mod_small (k `mod` 801 + 1)) by lia. lia.
Qed.

(** X15. The request ids of the airport extension: the [i]-th call of its
    [nextId()] returns [100 + i mod 801].  Every id lies in 100..900, and
    an id is handed out again after 801 calls whether or not the request
    that got it has been answered. *)
Theorem extension_ids_cycle (n i : nat) (r : Z) :
  fst (AirportHandler.nextIds n AirportHandler.startId) !! i = Some r →
  r = 100 + Z.of_nat i `mod` 801 ∧ 100 ≤ r ≤ 900.
Proof.
  intros Hi.
  apply (nextIds_cycle n 0 AirportHandler.startId) in Hi; [|lia|by left].
  rewrite Z.add_0_l in Hi. split; [done|].
  pose proof (Z.mod_pos_bound (Z.of_nat i) 801 ltac:(lia)). lia.
Qed.

Lemma extension_ids_cycle_witness :
  fst (AirportHandler.nextIds 803 AirportHandler.startId) !! 801%nat = Some 100
  ∧ 100 = 100 + Z.of_nat 801 `mod` 801 ∧ 100 ≤ 100 ≤ 900.
Proof.
  assert (fst (AirportHandler.nextIds 803 AirportHandler.startId) !! 801%nat
          = Some 100) as H by (vm_compute; reflexivity).
  split; [exact H|]. exact (extension_ids_cycle 803 801 100 H).
Defined.

(** X16. [supports(name)] is true exactly for the names that [get] answers
    with a keyed object; for every other name [get] returns the empty
    object. *)
Theorem supports_iff_get_answers
    (dist : AirportHandler.number → AirportHandler.number →
            AirportHandler.number → AirportHandler.number → AirportHandler.number)
    (ToNumber : string → AirportHandler.number)
    (db : list AirportHandler.Airport)
    (lat long : AirportHandler.number) (name : string) :
  AirportHandler.supports name = true
  ↔ AirportHandler.get dist ToNumber db lat long name ≠ AirportHandler.empty_object.
Proof.
  unfold AirportHandler.supports, AirportHandler.get.
  destruct (String.eqb_spec name AirportHandler.ALL_AIRPORTS) as [->|Hall].
  { split; [discriminate|]. intros _. by rewrite bool_decide_eq_true_2 by set_solver. }
  destruct (startsWith name AirportHandler.NEARBY_AIRPORTS) eqn:Hnear.
  { split; [discriminate|]. intros _. by case_bool_decide. }
  destruct (startsWith name AirportHandler.AIRPORT) eqn:Hair.
  { split; [discriminate|]. intros _. by case_bool_decide. }
  case_bool_decide as Hin; [|split; done].
  exfalso. unfold AirportHandler.SPECIAL_VARS in Hin.
  rewrite !elem_of_cons, elem_of_nil in Hin.
  destruct Hin as [->|[->|[->|[]]]]; [done|discriminate Hnear|discriminate Hair].
Qed.

(** X17. [getVarArg]: a name without a colon has no argument; otherwise the
    argument is everything behind the first colon, further colons
    included. *)
Theorem getVarArg_behind_first_colon (p s : string) :
  includes ":" p = false →
  AirportHandler.getVarArg p = None
  ∧ AirportHandler.getVarArg (p +:+ ":" +:+ s) = Some s.
Proof.
  intros Hp. unfold AirportHandler.getVarArg. rewrite Hp. split; [done|].
  revert Hp. unfold includes. induction p as [|c p IH].
  - intros _. reflexivity.
  - change (String c p +:+ ":" +:+ s) with (String c (p +:+ ":" +:+ s)).
    cbn [indexOf]. destruct (Ascii.eqb_spec c ":") as [->|Hc]; [done|].
    destruct (indexOf ":" p) eqn:Hidx; [done|]. intros _.
    specialize (IH eq_refl).
    destruct (indexOf ":" (p +:+ ":" +:+ s)) as [i|] eqn:Hi; simpl in *; [|done].
    exact IH.
Qed.

Lemma getVarArg_behind_first_colon_witness :
  includes ":" "NEARBY AIRPORTS" = false
  ∧ AirportHandler.getVarArg "NEARBY AIRPORTS" = None
  ∧ AirportHandler.getVarArg "NEARBY AIRPORTS:12:30" = Some "12:30".
Proof.
  split; [reflexivity|].
  exact (getVarArg_behind_first_colon "NEARBY AIRPORTS" "12:30" eq_refl).
Defined.

(** X18. The page handler looks at nothing but the pages of its own
    request: pages that carry another request id can arrive anywhere in
    between without changing the list that is built, or the point where it
    stops. *)
Theorem pagination_ignores_other_requests (requestId : Z)
    (pages : list AirportHandler.airportList) :
  AirportHandler.receive requestId pages
  = AirportHandler.receive requestId (AirportHandler.mine requestId pages).
Proof.
  unfold AirportHandler.receive.
  generalize ({| AirportHandler.list_ := []; AirportHandler.registered := true;
                 AirportHandler.resolved := false |}).
  induction pages as [|q pages IH]; intros st; [done|].
  unfold AirportHandler.mine in *.
  destruct (decide (AirportHandler.requestID q = requestId)) as [Heq|Hne].
  - rewrite filter_cons_True by done. simpl. apply IH.
  - rewrite filter_cons_False by done. simpl. rewrite <- IH. f_equal.
    unfold AirportHandler.deliver, AirportHandler.handler.
    destruct (Z.eqb_spec (AirportHandler.requestID q) requestId); [done|].
    by destruct (AirportHandler.registered st).
Qed.

(** The elements of the answer of [getAllNearbyAirports]. *)
Lemma nearby_elements
    (dist : AirportHandler.number → AirportHandler.number →
            AirportHandler.number → AirportHandler.number → AirportHandler.number)
    (ToNumber : string → AirportHandler.number)
    (db : list AirportHandler.Airport)
    (lat long : AirportHandler.number) (radius : option string)
    (x : AirportHandler.found) :
  let varName :=
    match radius with
    | Some text => "NEARBY AIRPORTS:" +:+ text
    | None => "NEARBY AIRPORTS"
    end in
  let radiusNM :=
    match radius with Some text => ToNumber text | None => 200%float end in
  let d a :=
    dist lat long (AirportHandler.radians (AirportHandler.latitude a))
      (AirportHandler.radians (AirportHandler.longitude a)) in
  let KM := AirportHandler.mul radiusNM AirportHandler.KM_PER_NM in
  x ∈ AirportHandler.getAllNearbyAirports dist ToNumber db lat long varName →
  AirportHandler.airport x ∈ db
  ∧ AirportHandler.le (d (AirportHandler.airport x)) KM = true
  ∧ AirportHandler.distance x
    = AirportHandler.div (d (AirportHandler.airport x)) AirportHandler.KM_PER_NM.
Proof.
  intros varName radiusNM d KM. unfold AirportHandler.getAllNearbyAirports.
  assert (AirportHandler.getVarArg varName = radius) as ->
    by (unfold varName; destruct radius; reflexivity).
  rewrite sort_Permutation.
  assert (match radius with
          | Some text => AirportHandler.mul (ToNumber text) AirportHandler.KM_PER_NM
          | None => AirportHandler.mul 200%float AirportHandler.KM_PER_NM
          end = KM) as -> by (unfold KM, radiusNM; by destruct radius).
  rewrite list_elem_of_In, in_flat_map. intros (a & Ha & Hx).
  fold (d a) in Hx. destruct (AirportHandler.le (d a) KM) eqn:Hle; [|done].
  destruct Hx as [<-|[]]. simpl. split; [by apply list_elem_of_In|done].
Qed.

(** X19. When the text behind the colon is not a number, the radius is
    [NaN], no distance compares as within it, and the answer is empty
    whatever the database holds. *)
Theorem nearby_radius_not_a_number
    (dist : AirportHandler.number → AirportHandler.number →
            AirportHandler.number → AirportHandler.number → AirportHandler.number)
    (ToNumber : string → AirportHandler.number)
    (db : list AirportHandler.Airport)
    (lat long : AirportHandler.number) (text : string) :
  ToNumber text = AirportHandler.NaN →
  AirportHandler.getAllNearbyAirports dist ToNumber db lat long
    ("NEARBY AIRPORTS:" +:+ text) = [].
Proof.
  intros Hnan.
  destruct (AirportHandler.getAllNearbyAirports dist ToNumber db lat long
              ("NEARBY AIRPORTS:" +:+ text)) as [|x l] eqn:Hres; [done|].
  assert (x ∈ AirportHandler.getAllNearbyAirports dist ToNumber db lat long
                ("NEARBY AIRPORTS:" +:+ text)) as Hx
    by (rewrite Hres; apply elem_of_cons; by left).
  apply (nearby_elements dist ToNumber db lat long (Some text)) in Hx
    as (_ & Hle & _).
  rewrite Hnan in Hle.
  change (AirportHandler.mul AirportHandler.NaN AirportHandler.KM_PER_NM)
    with nan in Hle.
  apply leb_true in Hle as (_ & Hn & _). done.
Qed.

Lemma nearby_radius_not_a_number_witness :
  let a := {| AirportHandler.icao := "KSEA";
              AirportHandler.latitude := 0%float;
              AirportHandler.longitude := 0%float;
              AirportHandler.altitude := 0%float;
              AirportHandler.declination := 0%float;
              AirportHandler.name := "Seattle";
              AirportHandler.name64 := "Seattle";
              AirportHandler.region := "K1";
              AirportHandler.runwayCount := 0;
              AirportHandler.runways := [] |} in
  AirportHandler.getAllNearbyAirports (fun _ _ _ _ => 0%float) (fun _ => nan) [a]
    0%float 0%float "NEARBY AIRPORTS:close" = [].
Proof.
  intros a.
  apply (nearby_radius_not_a_number (fun _ _ _ _ => 0%float) (fun _ => nan) [a]
           0%float 0%float "close").
  reflexivity.
Defined.

(** X20. Whatever the radius, every element of the answer is an airport of
    the database, and neither the distance computed for it nor the
    [distance] it is annotated with is [NaN]: an airport for which [dist]
    gives [NaN] is left out. *)
Theorem nearby_distance_not_nan
    (dist : AirportHandler.number → AirportHandler.number →
            AirportHandler.number → AirportHandler.number → AirportHandler.number)
    (ToNumber : string → AirportHandler.number)
    (db : list AirportHandler.Airport)
    (lat long : AirportHandler.number) (radius : option string) :
  let varName :=
    match radius with
    | Some text => "NEARBY AIRPORTS:" +:+ text
    | None => "NEARBY AIRPORTS"
    end in
  let d a :=
    dist lat long
      (AirportHandler.latitude a / 180 * 3.141592653589793)%float
      (AirportHandler.longitude a / 180 * 3.141592653589793)%float in
  Forall (fun x => AirportHandler.airport x ∈ db
                   ∧ is_nan (d (AirportHandler.airport x)) = false
                   ∧ AirportHandler.distance x
                     = (d (AirportHandler.airport x) / 1.852)%float
                   ∧ is_nan (AirportHandler.distance x) = false)
    (AirportHandler.getAllNearbyAirports dist ToNumber db lat long varName).
Proof.
  intros varName d. apply Forall_forall. intros x Hx.
  apply nearby_elements in Hx as (Hdb & Hle & Hdist).
  apply leb_true in Hle as (Hd & _).
  change (Double.not_nan (d (AirportHandler.airport x)) = true) in Hd.
  change (AirportHandler.distance x
          = AirportHandler.div (d (AirportHandler.airport x))
              AirportHandler.KM_PER_NM) in Hdist.
  split; [done|]. split; [by rewrite is_nan_not_nan, Hd|].
  split; [exact Hdist|].
  by rewrite Hdist, is_nan_not_nan, div_KM_PER_NM_not_nan.
Qed.

Section InitMore.

Variable bytes : Type.
Variable gunzip : bytes → outcome bytes.
Variable JSON_parse : bytes → outcome (list AirportHandler.Airport).
Variable JSON_stringify : list AirportHandler.Airport → bytes.
Variable gzip : bytes → bytes.
Variable writeFileSync_error : bytes → option exn.
Variable details : AirportHandler.facility → AirportHandler.Airport.

(** [init] on a stored file that decompresses and parses. *)
Lemma init_Stored_decoded (l : list AirportHandler.facility) (zipped json : bytes)
    (cached : list AirportHandler.Airport) :
  gunzip zipped = Return json →
  JSON_parse json = Return cached →
  AirportHandler.init bytes gunzip JSON_parse JSON_stringify gzip
    writeFileSync_error details l
    (AirportHandler.start bytes (AirportHandler.Stored bytes zipped))
  = (Return tt,
     {| AirportHandler.this_airports := Some cached;
        AirportHandler.console :=
          if bool_decide (Datatypes.length cached = Datatypes.length l) then []
          else
            [AirportHandler.Line AirportHandler.warn
               ("MSFS has " +:+ pretty (Datatypes.length l) +:+ " airports, db has "
                +:+ pretty (Datatypes.length cached) +:+ " airports.") None;
             AirportHandler.Line AirportHandler.warn
               "You may need to update your version of msfs-simconnet-api-wrapper..."
               None];
        AirportHandler.closed := true;
        AirportHandler.finished := 1%nat;
        AirportHandler.db := AirportHandler.Stored bytes zipped |}).
Proof.
  intros Hg Hp.
  unfold AirportHandler.init, AirportHandler.load, AirportHandler.start.
  unfold AirportHandler.existsSync, AirportHandler.readFileSync,
    AirportHandler.gunzipSync, AirportHandler.parse, AirportHandler.set_airports,
    AirportHandler.close, AirportHandler.print, AirportHandler.call_finished.
  unfold bind, try_catch, gets, ret, throw, modify.
  cbn [AirportHandler.db]. rewrite Hg, Hp.
  case_bool_decide; reflexivity.
Qed.

(** [init] either ends in the cache block with the decoded airports, or
    runs the rebuild from a state in which nothing but console lines was
    added. *)
Lemma init_load_or_build (l : list AirportHandler.facility)
    (f : AirportHandler.file bytes) :
  (∃ lines,
     AirportHandler.init bytes gunzip JSON_parse JSON_stringify gzip
       writeFileSync_error details l (AirportHandler.start bytes f)
     = AirportHandler.build bytes JSON_stringify gzip writeFileSync_error details l
         {| AirportHandler.this_airports := None;
            AirportHandler.console := lines;
            AirportHandler.closed := false;
            AirportHandler.finished := O;
            AirportHandler.db := f |})
  ∨ (∃ cached lines,
       AirportHandler.init bytes gunzip JSON_parse JSON_stringify gzip
         writeFileSync_error details l (AirportHandler.start bytes f)
       = (Return tt,
          {| AirportHandler.this_airports := Some cached;
             AirportHandler.console := lines;
             AirportHandler.closed := true;
             AirportHandler.finished := 1%nat;
             AirportHandler.db := f |})).
Proof.
  destruct f as [|e|zipped]; [left; eexists; reflexivity..|].
  destruct (gunzip zipped) as [json|e] eqn:Hg.
  - destruct (JSON_parse json) as [cached|e] eqn:Hp.
    + right. eexists _, _. by eapply init_Stored_decoded.
    + left. eexists.
      unfold AirportHandler.init, AirportHandler.load, AirportHandler.start.
      unfold AirportHandler.existsSync, AirportHandler.readFileSync,
        AirportHandler.gunzipSync, AirportHandler.parse.
      unfold bind, try_catch, gets, ret, throw, modify.
      cbn [AirportHandler.db]. rewrite Hg, Hp. reflexivity.
  - left. eexists.
    unfold AirportHandler.init, AirportHandler.load, AirportHandler.start.
    unfold AirportHandler.existsSync, AirportHandler.readFileSync,
      AirportHandler.gunzipSync, AirportHandler.parse.
    unfold bind, try_catch, gets, ret, throw, modify.
    cbn [AirportHandler.db]. rewrite Hg. reflexivity.
Qed.

(** X21. Whatever is at the database location, when [init] returns it has
    called [finished()] exactly once, closed its connection and set
    [this.airports]; and when it throws instead (the final write failed),
    [finished()] was not called. *)
Theorem init_finishes_once (l : list AirportHandler.facility)
    (f : AirportHandler.file bytes) :
  let r := AirportHandler.init bytes gunzip JSON_parse JSON_stringify gzip
             writeFileSync_error details l (AirportHandler.start bytes f) in
  match fst r with
  | Return _ =>
      AirportHandler.finished bytes (snd r) = 1%nat
      ∧ AirportHandler.closed bytes (snd r) = true
      ∧ is_Some (AirportHandler.this_airports bytes (snd r))
  | Throw _ => AirportHandler.finished bytes (snd r) = O
  end.
Proof.
  intros r. unfold r.
  destruct (init_load_or_build l f) as [[lines ->]|(cached & lines & ->)].
  - rewrite build_spec. destruct (writeFileSync_error _); simpl; eauto.
  - simpl. eauto.
Qed.

(** X22. A database written by [init] is read back by the next [init]:
    when decompressing undoes compressing and parsing undoes
    [JSON.stringify], a run that finds no file and builds one is followed
    by a run (for the same facility list) that ends in the cache block with
    the same airports, prints no warning, and leaves the file as it is. *)
Theorem init_reads_back_what_it_wrote (l : list AirportHandler.facility) :
  (∀ b, gunzip (gzip b) = Return b) →
  (∀ a, JSON_parse (JSON_stringify a) = Return a) →
  (∀ b, writeFileSync_error b = None) →
  let first :=
    AirportHandler.init bytes gunzip JSON_parse JSON_stringify gzip
      writeFileSync_error details l
      (AirportHandler.start bytes (AirportHandler.Missing bytes)) in
  let second :=
    AirportHandler.init bytes gunzip JSON_parse JSON_stringify gzip
      writeFileSync_error details l
      (AirportHandler.start bytes (AirportHandler.db bytes (snd first))) in
  fst first = Return tt
  ∧ AirportHandler.this_airports bytes (snd first) = Some (map details l)
  ∧ fst second = Return tt
  ∧ AirportHandler.this_airports bytes (snd second) = Some (map details l)
  ∧ AirportHandler.console bytes (snd second) = []
  ∧ AirportHandler.db bytes (snd second) = AirportHandler.db bytes (snd first).
Proof.
  intros Hzip Hjson Hwrite first second.
  assert (first
          = AirportHandler.build bytes JSON_stringify gzip writeFileSync_error details l
              (AirportHandler.start bytes (AirportHandler.Missing bytes))) as Hfirst
    by reflexivity.
  rewrite build_spec, Hwrite in Hfirst.
  unfold second. rewrite Hfirst. cbn [fst snd AirportHandler.db
    AirportHandler.this_airports].
  rewrite (init_Stored_decoded l _ _ (map details l) (Hzip _) (Hjson _)).
  cbn [fst snd AirportHandler.db AirportHandler.this_airports AirportHandler.console].
  rewrite length_map, bool_decide_eq_true_2 by done. done.
Qed.

End InitMore.

(** X22 with buffers that record how often they were compressed: only a
    compressed buffer decompresses, only an uncompressed one parses. *)
Lemma init_reads_back_what_it_wrote_witness :
  let bytes := (nat * list AirportHandler.Airport)%type in
  let gunzip (b : bytes) :=
    match b with
    | (S n, a) => Return (n, a)
    | (O, _) => Throw (Error "incorrect header check")
    end in
  let JSON_parse (b : bytes) :=
    match b with
    | (O, a) => Return a
    | (S _, _) => Throw (SyntaxError "Unexpected token in JSON at position 0")
    end in
  let JSON_stringify (a : list AirportHandler.Airport) : bytes := (O, a) in
  let gzip (b : bytes) : bytes := (S (fst b), snd b) in
  let details (e : AirportHandler.facility) :=
    {| AirportHandler.icao := AirportHandler.facility_icao e;
       AirportHandler.latitude := AirportHandler.facility_latitude e;
       AirportHandler.longitude := AirportHandler.facility_longitude e;
       AirportHandler.altitude := AirportHandler.facility_altitude e;
       AirportHandler.declination := 0%float;
       AirportHandler.name := "airport";
       AirportHandler.name64 := "airport";
       AirportHandler.region := "XX";
       AirportHandler.runwayCount := 0;
       AirportHandler.runways := [] |} in
  let l :=
    [ {| AirportHandler.facility_icao := "KSEA";
         AirportHandler.facility_latitude := 47%float;
         AirportHandler.facility_longitude := (-122)%float;
         AirportHandler.facility_altitude := 132%float |} ] in
  let first :=
    AirportHandler.init bytes gunzip JSON_parse JSON_stringify gzip
      (fun _ => None) details l
      (AirportHandler.start bytes (AirportHandler.Missing bytes)) in
  let second :=
    AirportHandler.init bytes gunzip JSON_parse JSON_stringify gzip
      (fun _ => None) details l
      (AirportHandler.start bytes (AirportHandler.db bytes (snd first))) in
  AirportHandler.this_airports bytes (snd second) = Some (map details l)
  ∧ AirportHandler.console bytes (snd second) = [].
Proof.
  intros bytes gunzip JSON_parse JSON_stringify gzip details l first second.
  destruct (init_reads_back_what_it_wrote bytes gunzip JSON_parse
              JSON_stringify gzip (fun _ => None) details l)
    as (_ & _ & _ & H4 & H5 & _).
  - intros [n a]. reflexivity.
  - intros a. reflexivity.
  - reflexivity.
  - split; [exact H4|exact H5].
Defined.

(** The decimal string of an id is none of the two airport event names. *)
Lemma pretty_Z_not_airport_event (k : Z) :
  pretty k ≠ AirportHandler.AIRPORTS_IN_RANGE_name
  ∧ pretty k ≠ AirportHandler.AIRPORTS_OUT_OF_RANGE_name.
Proof.
  destruct (pretty_Z_first k) as (c & rest & -> & Hc).
  assert (c ≠ "A"%char) as Hne.
  { destruct Hc as [->|[y ->]]; [discriminate|].
    unfold pretty_N_char. repeat case_match; discriminate. }
  split; intros [= ? _]; done.
Qed.

(** X23. The ["airportList"] listener of the airport extension finds its
    listeners under the name of the event.  After [on(AIRPORTS_IN_RANGE, h)]
    for a first and further handlers, a list that carries the in-range
    request id calls every one of them with the list, in the order of
    registration; a list with the out-of-range id, or with any other
    request id, calls nobody and changes nothing. *)
Theorem extension_airportList_by_name (s : api) (IN_RANGE OUT_OF_RANGE other : Z)
    (h1 : handler) (hs : list handler) (list : value) :
  IN_RANGE ≠ OUT_OF_RANGE →
  eventListeners s !! AirportHandler.AIRPORTS_IN_RANGE_name = None →
  eventListeners s !! AirportHandler.AIRPORTS_OUT_OF_RANGE_name = None →
  let register s h :=
    snd (on AirportHandler.AIRPORTS_IN_RANGE_name
           AirportHandler.AIRPORTS_OUT_OF_RANGE_name
           (Some AirportHandler.AIRPORTS_IN_RANGE_name) h s) in
  let s2 := foldl register s (h1 :: hs) in
  let r := AirportHandler.on_airportList IN_RANGE OUT_OF_RANGE IN_RANGE list s2 in
  fst r = Return tt
  ∧ trace (snd r) = trace s2 ++ map (fun h => invoke h list) (h1 :: hs)
  ∧ AirportHandler.on_airportList IN_RANGE OUT_OF_RANGE OUT_OF_RANGE list s2
    = (Return tt, s2)
  ∧ (other ≠ IN_RANGE → other ≠ OUT_OF_RANGE →
     AirportHandler.on_airportList IN_RANGE OUT_OF_RANGE other list s2
     = (Return tt, s2)).
Proof.
  intros Hne Hin Hout register s2 r.
  assert (∀ s h, register s h
                 = snd (addEventListener AirportHandler.AIRPORTS_IN_RANGE_name h s))
    as Hreg.
  { intros s' h. unfold register, on, __subscribeToAirports, bind, ret.
    rewrite bool_decide_eq_true_2 by apply list_elem_of_here.
    by destruct (addEventListener _ h s') as [[[]|e] s'']. }
  assert (∀ l s', foldl register s' l
                  = foldl (fun s h =>
                      snd (addEventListener AirportHandler.AIRPORTS_IN_RANGE_name h s))
                    s' l) as Hfold.
  { intros l. induction l as [|h l IH]; intros s'; simpl; [done|].
    by rewrite Hreg, IH. }
  assert (get_property s AirportHandler.AIRPORTS_IN_RANGE_name = Absent) as Habs.
  { unfold get_property. by rewrite Hin. }
  destruct (addEventListener_Absent s _ h1 Habs) as (_ & Hname & _ & Hheap & _ & _).
  set (i := fst (nextId s)) in *.
  set (s1 := snd (addEventListener AirportHandler.AIRPORTS_IN_RANGE_name h1 s)) in *.
  set (en := {| eventID := i; eventName := AirportHandler.AIRPORTS_IN_RANGE_name;
                data := Undefined; handlers := [h1] |}) in *.
  assert (heap s1 !! Datatypes.length (heap s) = Some en) as Hen.
  { rewrite Hheap. by apply list_lookup_middle. }
  assert (eventListeners s1 !! AirportHandler.AIRPORTS_OUT_OF_RANGE_name = None)
    as Hout1.
  { unfold s1, addEventListener. rewrite Habs.
    destruct (nextId_least s) as (j & Heq & _). rewrite Heq. simpl.
    rewrite lookup_insert_ne by apply pretty_Z_not_airport_event.
    rewrite lookup_insert_ne by done. exact Hout. }
  destruct (addEventListener_more hs s1 _ _ en Hname Hen eq_refl)
    as (_ & _ & He2 & Hheap2 & _).
  assert (s2 = foldl (fun s h =>
                  snd (addEventListener AirportHandler.AIRPORTS_IN_RANGE_name h s))
                s1 hs) as Hs2.
  { unfold s2. simpl. rewrite Hreg. fold s1. apply Hfold. }
  rewrite <- Hs2 in He2, Hheap2.
  assert (get_property s2 AirportHandler.AIRPORTS_IN_RANGE_name
          = Own (Datatypes.length (heap s)) (with_handlers (h1 :: hs) en)) as Hown.
  { apply get_property_Own. rewrite He2, Hheap2. split; [exact Hname|].
    apply list_lookup_insert_eq. by apply lookup_lt_Some in Hen. }
  assert (get_property s2 AirportHandler.AIRPORTS_OUT_OF_RANGE_name = Absent) as Hno.
  { unfold get_property. by rewrite He2, Hout1. }
  unfold r, AirportHandler.on_airportList.
  rewrite Z.eqb_refl. cbn [orb]. rewrite Hown, forEach_invoke.
  split; [done|]. split; [done|]. split.
  - rewrite (proj2 (Z.eqb_neq OUT_OF_RANGE IN_RANGE)) by done.
    rewrite Z.eqb_refl. cbn [orb]. by rewrite Hno.
  - intros H1 H2. by rewrite !(proj2 (Z.eqb_neq _ _)) by done.
Qed.

(** X23 on a new object: two handlers, the ids 5 and 6. *)
Lemma extension_airportList_by_name_witness :
  let register s h :=
    snd (on AirportHandler.AIRPORTS_IN_RANGE_name
           AirportHandler.AIRPORTS_OUT_OF_RANGE_name
           (Some AirportHandler.AIRPORTS_IN_RANGE_name) h s) in
  let s2 := foldl register init [7%nat; 8%nat] in
  trace (snd (AirportHandler.on_airportList 5 6 5 (Str "KSEA") s2))
  = trace s2 ++ [invoke 7%nat (Str "KSEA"); invoke 8%nat (Str "KSEA")]
  ∧ AirportHandler.on_airportList 5 6 6 (Str "KSEA") s2 = (Return tt, s2).
Proof.
  intros register s2.
  destruct (extension_airportList_by_name init 5 6 0 7%nat [8%nat] (Str "KSEA"))
    as (_ & H2 & H3 & _); [done|reflexivity|reflexivity|].
  split; [exact H2|exact H3].
Defined.

(** X24. The indices that the runway decoder can turn into a label: a
    surface index gives a label exactly for 0 to 31 and for 254, a runway
    number index exactly for 0 to 45, a designator index exactly for 0 to 7;
    every other index gives [undefined].  The runway numbers 1 to 36 decode
    to their own decimal string. *)
Theorem runway_table_bounds (i : Z) :
  (is_Some (AirportHandler.RUNWAY_SURFACES i) ↔ 0 ≤ i ≤ 31 ∨ i = 254)
  ∧ (is_Some (AirportHandler.RUNWAY_NUMBER i) ↔ 0 ≤ i ≤ 45)
  ∧ (is_Some (AirportHandler.RUNWAY_DESIGNATOR i) ↔ 0 ≤ i ≤ 7)
  ∧ (1 ≤ i ≤ 36 → AirportHandler.RUNWAY_NUMBER i = Some (pretty i)).
Proof.
  assert (∀ (l : list string) (n : nat),
            Datatypes.length l = n →
            is_Some ((if i <? 0 then None else l !! Z.to_nat i)) ↔ 0 ≤ i ≤ Z.of_nat n - 1)
    as Htable.
  { intros l n Hn. destruct (Z.ltb_spec i 0) as [Hneg|Hpos].
    - split; [by intros [? ?]|lia].
    - rewrite lookup_lt_is_Some, Hn. lia. }
  split; [|split; [|split]].
  - unfold AirportHandler.RUNWAY_SURFACES.
    destruct (Z.eqb_spec i 254) as [->|Hne].
    + split; [by right|by eexists].
    + rewrite (Htable AirportHandler.RUNWAY_SURFACES_labels 32%nat eq_refl). lia.
  - apply (Htable AirportHandler.RUNWAY_NUMBER_labels 46%nat eq_refl).
  - apply (Htable AirportHandler.RUNWAY_DESIGNATOR_labels 8%nat eq_refl).
  - intros Hi.
    assert (∃ n, i = Z.of_nat n ∧ (n ≤ 36)%nat) as (n & -> & Hn)
      by (exists (Z.to_nat i); lia).
    destruct n as [|n]; [lia|].
    do 36 (destruct n as [|n]; [vm_compute; reflexivity|]). lia.
Qed.

(** X24 at the index 27. *)
Lemma runway_table_bounds_witness :
  AirportHandler.RUNWAY_NUMBER 27 = Some "27".
Proof.
  destruct (runway_table_bounds 27) as (_ & _ & _ & H).
  etransitivity; [apply H; lia|]. reflexivity.
Defined.

(** X25. [getSpecial("NEARBY_AIRPORTS")] takes an id, registers a listener
    and requests the list under that id.  Messages for other requests leave
    the promise pending; the first message with the id resolves it with the
    list of that message ([airports], or [aiports] when [airports] is
    missing), takes the listener off the handle and releases the id, which
    leaves the set of reserved ids as it was before the call; messages that
    follow change nothing. *)
Theorem getSpecial_nearby_answer (s : api) (AirportDB : value)
    (earlier later : list airportList) (data : airportList) :
  let getID := fst (nextId s) in
  let r := getSpecial AirportDB "NEARBY_AIRPORTS" s in
  let s1 := snd r in
  let waiting := foldl (getSpecial_message getID) (nearby_start, s1) earlier in
  let answered := getSpecial_message getID waiting data in
  Forall (fun d => requestID d ≠ getID) earlier →
  requestID data = getID →
  fst r = (special_pending getID,
           [handle_on_airportList getID; requestFacilitiesListEx1 getID])
  ∧ getID ∈ reserved s1
  ∧ waiting = (nearby_start, s1)
  ∧ nearby_value (fst answered)
    = Some match airports data with
           | Undefined | Null => aiports data
           | v => v
           end
  ∧ nearby_calls (fst answered) = [handle_off_airportList getID]
  ∧ reserved (snd answered) = reserved s
  ∧ foldl (getSpecial_message getID) answered later = answered.
Proof.
  intros getID r s1 waiting answered.
  destruct (nextId_least s) as (i & Heq & _ & Hfree & _).
  assert (getID = i) as Hg by (unfold getID; by rewrite Heq).
  assert (r = (special_pending i,
               [handle_on_airportList i; requestFacilitiesListEx1 i],
               set_reserved ({[i]} ∪ reserved s) (set_id (i + 1) s))) as Hr.
  { unfold r, getSpecial. rewrite Heq. reflexivity. }
  subst answered waiting s1. rewrite Hr, Hg. clear Hr Hg r getID.
  cbn [fst snd]. intros Hearlier Hdata.
  set (waiting := foldl _ _ earlier).
  set (answered := getSpecial_message i waiting data).
  assert (waiting = (nearby_start, set_reserved ({[i]} ∪ reserved s) (set_id (i + 1) s)))
    as Hw.
  { unfold waiting. induction Hearlier as [|d l Hd _ IH]; [done|]. simpl.
    unfold getSpecial_message at 2. simpl.
    by rewrite (proj2 (Z.eqb_neq _ _) Hd). }
  assert (answered
          = ({| nearby_listening := false;
                nearby_value := Some match airports data with
                                     | Undefined | Null => aiports data
                                     | v => v
                                     end;
                nearby_calls := [handle_off_airportList i] |},
             releaseId i (set_reserved ({[i]} ∪ reserved s) (set_id (i + 1) s))))
    as Ha.
  { unfold answered. rewrite Hw. unfold getSpecial_message. simpl.
    by rewrite Hdata, Z.eqb_refl. }
  split; [done|]. split.
  { simpl. apply elem_of_union_l. by apply elem_of_singleton. }
  split; [exact Hw|]. rewrite Ha. simpl.
  split; [done|]. split; [done|]. split.
  - apply set_eq. intros k. rewrite elem_of_difference, elem_of_union, !elem_of_singleton.
    split; [intros [[->|Hk] Hne]; done|].
    intros Hk. split; [by right|]. by intros ->.
  - induction later as [|d l IH]; [done|]. simpl. exact IH.
Qed.

(** X25 on a new object: a message of another request, the answer with the
    list under [aiports], and a repetition of the answer. *)
Lemma getSpecial_nearby_answer_witness :
  let other := {| requestID := 7; airports := Str "EHAM"; aiports := Undefined |} in
  let data := {| requestID := 1; airports := Undefined; aiports := Str "KSEA" |} in
  let s1 := snd (getSpecial Undefined "NEARBY_AIRPORTS" init) in
  let answered := foldl (getSpecial_message 1) (nearby_start, s1) [other; data] in
  nearby_value (fst answered) = Some (Str "KSEA")
  ∧ reserved (snd answered) = ∅
  ∧ foldl (getSpecial_message 1) answered [data] = answered.
Proof.
  intros other data s1 answered.
  destruct (getSpecial_nearby_answer init Undefined [other] [data] data)
    as (_ & _ & _ & Hv & _ & Hr & Hl).
  - repeat constructor. discriminate.
  - reflexivity.
  - split; [exact Hv|]. split; [exact Hr|exact Hl].
Defined.
